(** * file_operation.py: a shallow embedding and its specification

    The module under study is a flat set of wrappers around the Python
    standard library: [glob.glob], [open], [json.loads], [shutil.copyfile],
    [os.path.*].  The wrappers are translated line by line; the library
    calls they make are modelled on CPython 3.11 for a POSIX host:

    - a Python [str] is a list of Unicode code points, [bytes] a list of
      octets;
    - the file system is a tree of directories and regular files (no
      symbolic or hard links, no permissions, no special files), paths are
      resolved component by component as the Linux kernel does, with its
      limits on the length of a name and of a path;
    - a path or an encoding name is first converted for the C library,
      which refuses a string that cannot be encoded or holds a null
      character;
    - Python list objects live in a store and are passed by reference;
    - a call runs in a state-and-exception monad: an exception keeps the
      effects performed before it was raised;
    - the codec registry and the JSON reader are part of the run-time
      environment and are left abstract in the general theorems.

    The file has four parts: the model and the module; the properties of
    the model; the claims C1 to C10 of the specification, each with the
    theorem that settles it; and further properties of the model and of
    the module, X1 to X18. *)

From Stdlib Require Import NArith Ascii String Lia.
From stdpp Require Import gmap list.

Local Open Scope N_scope.
Local Open Scope list_scope.

(** ** Python strings *)

Definition codepoint := N.
Definition str := list codepoint.
Definition bytes := list N.

(** A literal: the code points of an ASCII string. *)
Definition py (s : string) : str := map N_of_ascii (list_ascii_of_string s).

Definition SEP : codepoint := 47.       (* / *)
Definition STAR : codepoint := 42.      (* * *)
Definition QMARK : codepoint := 63.     (* ? *)
Definition LBRACK : codepoint := 91.    (* [ *)
Definition RBRACK : codepoint := 93.    (* ] *)
Definition BANG : codepoint := 33.      (* ! *)
Definition DASH : codepoint := 45.      (* - *)
Definition DOT : codepoint := 46.       (* . *)
Definition CR : codepoint := 13.
Definition LF : codepoint := 10.

Definition str_eqb (a b : str) : bool := bool_decide (a = b).

(** [s.split(sep)] for a one-character separator. *)
Fixpoint str_split (s : str) (sep : codepoint) : list str :=
  match s with
  | [] => [[]]
  | c :: s' =>
      if c =? sep then [] :: str_split s' sep
      else match str_split s' sep with
           | l :: ls => (c :: l) :: ls
           | [] => [[c]]
           end
  end.

(** [sep.join(l)]. *)
Fixpoint str_join (sep : str) (l : list str) : str :=
  match l with
  | [] => []
  | [x] => x
  | x :: l' => x ++ sep ++ str_join sep l'
  end.

Definition startswith (p s : str) : bool := str_eqb (take (length p) s) p.
Definition endswith (p s : str) : bool :=
  str_eqb (drop (length s - length p) s) p.

(** ** posixpath *)

Definition is_sep (c : codepoint) : bool := c =? SEP.

(** The characters after the last separator; [acc] holds them reversed. *)
Fixpoint tail_from (acc p : str) : str :=
  match p with
  | [] => rev acc
  | c :: p' => if is_sep c then tail_from [] p' else tail_from (c :: acc) p'
  end.

Fixpoint lstrip_sep (s : str) : str :=
  match s with
  | c :: s' => if is_sep c then lstrip_sep s' else s
  | [] => []
  end.

Definition rstrip_sep (s : str) : str := rev (lstrip_sep (rev s)).

(** [os.path.basename(p)]: [p[p.rfind('/')+1:]]. *)
Definition os_path_basename (p : str) : str := tail_from [] p.

(** [os.path.split(p)]. *)
Definition os_path_split (p : str) : str * str :=
  let tail := tail_from [] p in
  let head := take (length p - length tail) p in
  let head' :=
    match head with
    | [] => head
    | _ => if forallb is_sep head then head else rstrip_sep head
    end in
  (head', tail).

(** [os.path.join(a, b)]. *)
Definition os_path_join (a b : str) : str :=
  if startswith [SEP] b then b
  else if bool_decide (a = []) || endswith [SEP] a then a ++ b
  else a ++ SEP :: b.

(** ** The file system *)

Inductive errno := ENOENT | ENOTDIR | EISDIR | ENAMETOOLONG.

(** Why a call that takes a path fails: the interpreter refuses the
    string before any system call is made ([os.fsencode] fails, or the
    encoded path holds a null byte), or the kernel answers with an error
    number. *)
Inductive failure :=
  | Unencodable
  | EmbeddedNull
  | Errno (e : errno).

(** [os.fsencode] is UTF-8 with [surrogateescape]: the lone surrogates
    U+DC80 to U+DCFF stand for the bytes 0x80 to 0xFF, the other
    surrogates cannot be encoded. *)
Definition is_null (c : codepoint) : bool := c =? 0.
Definition is_surrogate (c : codepoint) : bool :=
  (55296 <=? c) && (c <=? 57343).
Definition is_escaped_byte (c : codepoint) : bool :=
  (56448 <=? c) && (c <=? 56575).
Definition fs_encodable (c : codepoint) : bool :=
  (negb (is_surrogate c) || is_escaped_byte c) && (c <=? 1114111).

(** The number of bytes of the encoded character. *)
Definition fs_width (c : codepoint) : N :=
  if c <? 128 then 1
  else if c <? 2048 then 2
  else if is_escaped_byte c then 1
  else if c <? 65536 then 3
  else 4.

Definition fs_length (s : str) : N :=
  fold_right (fun c n => fs_width c + n) 0 s.

(** The limits of Linux: a name holds at most [NAME_MAX] bytes (on ext4,
    tmpfs, overlayfs and the other usual file systems), a path fewer than
    [PATH_MAX]. *)
Definition NAME_MAX : N := 255.
Definition PATH_MAX : N := 4096.

(** A string the interpreter hands over to the kernel as it is. *)
Definition fs_str (p : str) : bool :=
  forallb fs_encodable p && negb (existsb is_null p).

(** What happens to a path before the walk: the conversion of the
    argument ([PyUnicode_FSConverter]: encode, then look for a null
    byte), then the copy into the kernel ([getname]: the length, then
    the empty path). *)
Definition path_arg (p : str) : option failure :=
  if negb (forallb fs_encodable p) then Some Unencodable
  else if existsb is_null p then Some EmbeddedNull
  else if PATH_MAX <=? fs_length p then Some (Errno ENAMETOOLONG)
  else match p with
       | [] => Some (Errno ENOENT)
       | _ => None
       end.

#[warnings="-register-all"]
Inductive node :=
  | File (data : bytes)
  | Dir (entries : list (str * node)).

Fixpoint assoc {A} (k : str) (l : list (str * A)) : option A :=
  match l with
  | [] => None
  | (k', v) :: l' => if str_eqb k' k then Some v else assoc k l'
  end.

(** Replace the entry called [k], or append a new one at the end of the
    directory. *)
Fixpoint assoc_set {A} (k : str) (v : A) (l : list (str * A)) : list (str * A) :=
  match l with
  | [] => [(k, v)]
  | (k', v') :: l' =>
      if str_eqb k' k then (k, v) :: l' else (k', v') :: assoc_set k v l'
  end.

(** The node at a canonical path (a list of entry names from the root). *)
Fixpoint tree_get (cs : list str) (n : node) : option node :=
  match cs with
  | [] => Some n
  | c :: cs' =>
      match n with
      | Dir es =>
          match assoc c es with
          | Some m => tree_get cs' m
          | None => None
          end
      | File _ => None
      end
  end.

(** Store a regular file at a canonical path whose parent exists. *)
Fixpoint tree_put (cs : list str) (b : bytes) (n : node) : option node :=
  match cs with
  | [] => None
  | c :: cs' =>
      match n with
      | Dir es =>
          match cs' with
          | [] => Some (Dir (assoc_set c (File b) es))
          | _ =>
              match assoc c es with
              | Some m =>
                  match tree_put cs' b m with
                  | Some m' => Some (Dir (assoc_set c m' es))
                  | None => None
                  end
              | None => None
              end
          end
      | File _ => None
      end
  end.

(** Path resolution: walk the components [cs] from the canonical
    directory [cur]; every component, also an empty one, ["."] and [".."], needs
    the directory it is looked up in, and a name that is looked up in a
    directory must fit in [NAME_MAX] bytes. *)
Fixpoint namei (root : node) (cur : list str) (cs : list str) : errno + list str :=
  match cs with
  | [] => inr cur
  | c :: cs' =>
      match tree_get cur root with
      | Some (Dir _) =>
          if str_eqb c [] || str_eqb c [DOT] then namei root cur cs'
          else if str_eqb c [DOT; DOT] then namei root (removelast cur) cs'
          else if NAME_MAX <? fs_length c then inl ENAMETOOLONG
          else namei root (cur ++ [c]) cs'
      | Some (File _) => inl ENOTDIR
      | None => inl ENOENT
      end
  end.

(** ** The run-time environment and the state of a call *)

Inductive pyerror :=
  | TypeError
  | ValueError
  | LookupError
  | IndexError
  | SystemError
  | UnicodeDecodeError
  | UnicodeEncodeError
  | JSONDecodeError
  | RecursionError
  | FileNotFoundError (filename : str)
  | NotADirectoryError (filename : str)
  | IsADirectoryError (filename : str)
  | OSError (errnum : errno) (filename : str)
  | SameFileError.

(** The [OSError] subclass Python raises for an error number, [OSError]
    itself where there is none. *)
Definition oserror (e : errno) (p : str) : pyerror :=
  match e with
  | ENOENT => FileNotFoundError p
  | ENOTDIR => NotADirectoryError p
  | EISDIR => IsADirectoryError p
  | ENAMETOOLONG => OSError ENAMETOOLONG p
  end.

(** What a call on the path [p] raises when it fails. *)
Definition path_error (f : failure) (p : str) : pyerror :=
  match f with
  | Unencodable => UnicodeEncodeError
  | EmbeddedNull => ValueError
  | Errno e => oserror e p
  end.

(** [isinstance(e, OSError)]. *)
Definition is_OSError (e : pyerror) : bool :=
  match e with
  | FileNotFoundError _ | NotADirectoryError _ | IsADirectoryError _
  | OSError _ _ | SameFileError => true
  | _ => false
  end.

(** A [str] passed where the C library wants a string (the [encoding]
    of [open]): it is encoded as strict UTF-8, which refuses every
    surrogate, and may not hold a null character. *)
Definition str_arg (s : str) : option pyerror :=
  if existsb is_surrogate s || negb (forallb (fun c => c <=? 1114111) s)
  then Some UnicodeEncodeError
  else if existsb is_null s then Some ValueError
  else None.

Record codec := Codec {
  decode : bytes -> option str;
  encode : str -> option bytes
}.

#[warnings="-register-all"]
Inductive json :=
  | JNull
  | JBool (b : bool)
  | JNumber (lexeme : str)
  | JString (s : str)
  | JArray (items : list json)
  | JObject (members : list (str * json)).

(** The library services that are looked up by name or imported: the
    codec registry and [json.loads] on a [str], which returns a value or
    raises ([JSONDecodeError] for a text that is not JSON, but also
    [RecursionError] and the like). *)
Record pylib := PyLib {
  codec_registry : str -> option codec;
  json_loads : str -> pyerror + json
}.

(** The codec [open] finds for an encoding name: none for a name that
    cannot be passed to the C library. *)
Definition lookup_codec (l : pylib) (name : str) : option codec :=
  match str_arg name with
  | Some _ => None
  | None => codec_registry l name
  end.

Definition loc := nat.

Record world := World {
  root : node;
  cwd : list str;
  heap : gmap loc (list str);
  lib : pylib
}.

Definition set_root (w : world) (r : node) : world :=
  World r (cwd w) (heap w) (lib w).
Definition set_heap (w : world) (h : gmap loc (list str)) : world :=
  World (root w) (cwd w) h (lib w).

(** A computation: the final state is kept when an exception is raised. *)
Definition M (A : Type) : Type := world -> world * (pyerror + A).

Definition ret {A} (a : A) : M A := fun w => (w, inr a).
Definition raise {A} (e : pyerror) : M A := fun w => (w, inl e).
Definition bind {A B} (c : M A) (k : A -> M B) : M B :=
  fun w => match c w with
           | (w', inr a) => k a w'
           | (w', inl e) => (w', inl e)
           end.
Definition gets {A} (f : world -> A) : M A := fun w => (w, inr (f w)).

Notation "x <- c ;; k" := (bind c (fun x => k))
  (at level 100, c at next level, right associativity).
Notation "c ;;; k" := (bind c (fun _ => k))
  (at level 100, right associativity).

(** [try: c except OSError: h]. *)
Definition except_OSError {A} (c h : M A) : M A := fun w =>
  match c w with
  | (w', inl e) => if is_OSError e then h w' else (w', inl e)
  | r => r
  end.

(** [for x in l: body(x)]. *)
Fixpoint for_each {A} (l : list A) (body : A -> M unit) : M unit :=
  match l with
  | [] => ret tt
  | x :: l' => body x ;;; for_each l' body
  end.

(** [[f(x) for x in l]]. *)
Fixpoint map_m {A B} (f : A -> M B) (l : list A) : M (list B) :=
  match l with
  | [] => ret []
  | x :: l' => y <- f x ;; ys <- map_m f l' ;; ret (y :: ys)
  end.

(** ** [os] *)

Definition start_dir (w : world) (p : str) : list str :=
  if startswith [SEP] p then [] else cwd w.

(** The walk of the kernel along the components of [p]. *)
Definition walk (w : world) (p : str) : errno + list str :=
  namei (root w) (start_dir w p) (str_split p SEP).

(** The canonical path a path string names; the last component need not
    exist. *)
Definition resolve (w : world) (p : str) : failure + list str :=
  match path_arg p with
  | Some f => inl f
  | None =>
      match walk w p with
      | inl e => inl (Errno e)
      | inr cs => inr cs
      end
  end.

(** [os.stat(p)], as a function of the state. *)
Definition os_stat (w : world) (p : str) : failure + node :=
  match resolve w p with
  | inl f => inl f
  | inr cs =>
      match tree_get cs (root w) with
      | Some n => inr n
      | None => inl (Errno ENOENT)
      end
  end.

(** [os.stat(p)], as a call. *)
Definition os_stat_call (p : str) : M node := fun w =>
  match os_stat w p with
  | inl f => (w, inl (path_error f p))
  | inr n => (w, inr n)
  end.

Definition os_path_isfile (w : world) (p : str) : bool :=
  match os_stat w p with inr (File _) => true | _ => false end.

Definition os_path_isdir (w : world) (p : str) : bool :=
  match os_stat w p with inr (Dir _) => true | _ => false end.

(** [os.path.exists] and, without symbolic links, [os.path.lexists]. *)
Definition os_path_exists (w : world) (p : str) : bool :=
  match os_stat w p with inr _ => true | _ => false end.

(** [os.path.samefile(a, b)]: both paths are stat'ed, [a] first; without
    links, they name the same file when they lead to the same place. *)
Definition os_path_samefile (a b : str) : M bool :=
  os_stat_call a ;;;
  os_stat_call b ;;;
  gets (fun w =>
          match resolve w a, resolve w b with
          | inr ca, inr cb => bool_decide (ca = cb)
          | _, _ => false
          end).

(** [shutil._samefile]: an [OSError] of [os.path.samefile] reads as
    [False], any other exception escapes. *)
Definition _samefile (src dst : str) : M bool :=
  except_OSError (os_path_samefile src dst) (ret false).

(** [shutil._stat]. *)
Definition _stat (fn : str) : M node := os_stat_call fn.

(** [os.scandir(p)]: the entries in directory order, [None] when it
    fails. *)
Definition os_scandir (w : world) (p : str) : option (list (str * node)) :=
  match os_stat w p with inr (Dir es) => Some es | _ => None end.

(** What [os.path.isdir] can be handed: a path string, or (as in
    [__validate_path_dir__]) the builtin type object [str]. *)
Inductive pyobject := PathStr (s : str) | TypeObject_str.

(** [os.path.isdir(x)] catches [OSError] and [ValueError] only: the
    [TypeError] of [os.stat] on a non-path object escapes. *)
Definition os_path_isdir_obj (x : pyobject) : M bool :=
  match x with
  | PathStr s => gets (fun w => os_path_isdir w s)
  | TypeObject_str => raise TypeError
  end.

(** ** [open] and file objects *)

(** [open(p, 'rb')] at system-call level: the canonical path of the file. *)
Definition raw_open_read (p : str) : M (list str) := fun w =>
  match resolve w p with
  | inl f => (w, inl (path_error f p))
  | inr cs =>
      match tree_get cs (root w) with
      | Some (File _) => (w, inr cs)
      | Some (Dir _) => (w, inl (IsADirectoryError p))
      | None => (w, inl (FileNotFoundError p))
      end
  end.

(** The path of the directory that holds the last name of [q], written
    so that the walk ends in it: ["d/new"] gives ["d/."]. *)
Definition parent_dot (q : str) : str :=
  take (length q - length (os_path_basename q)) q ++ [DOT].

(** [open(p, 'wb')]: create or truncate.  With [O_CREAT] a path written
    with a trailing slash is [EISDIR] as soon as the directory that holds
    its last name is reached: the name itself is not looked up. *)
Definition raw_open_write (p : str) : M (list str) := fun w =>
  match path_arg p with
  | Some f => (w, inl (path_error f p))
  | None =>
      if endswith [SEP] p then
        match rstrip_sep p with
        | [] => (w, inl (IsADirectoryError p))
        | q =>
            match walk w (parent_dot q) with
            | inr _ => (w, inl (IsADirectoryError p))
            | inl e => (w, inl (oserror e p))
            end
        end
      else
        match walk w p with
        | inl e => (w, inl (oserror e p))
        | inr cs =>
            match tree_get cs (root w) with
            | Some (Dir _) => (w, inl (IsADirectoryError p))
            | _ =>
                match tree_put cs [] (root w) with
                | Some r => (set_root w r, inr cs)
                | None => (w, inl (FileNotFoundError p))
                end
            end
        end
  end.

Definition file_data (w : world) (cs : list str) : bytes :=
  match tree_get cs (root w) with
  | Some (File b) => b
  | _ => []
  end.

Definition file_store (cs : list str) (b : bytes) : M unit := fun w =>
  match tree_put cs b (root w) with
  | Some r => (set_root w r, inr tt)
  | None => (w, inl ValueError)
  end.

(** A file object: the open file and, in text mode, its codec. *)
Record file_obj := FileObj {
  fo_path : list str;
  fo_codec : option codec
}.

Inductive content := Text (s : str) | Bytes (b : bytes).

(** Universal newlines (the default [newline=None] on reading): ["\r\n"]
    and a lone ["\r"] become ["\n"]; [pendingcr] says the previous
    character was a carriage return. *)
Fixpoint translate_newlines (pendingcr : bool) (s : str) : str :=
  match s with
  | [] => []
  | c :: s' =>
      if c =? CR then LF :: translate_newlines true s'
      else if c =? LF then
        if pendingcr then translate_newlines false s'
        else LF :: translate_newlines false s'
      else c :: translate_newlines false s'
  end.

Definition universal_newlines (s : str) : str := translate_newlines false s.

(** [open(path, mode, encoding=encoding)] for the three modes the module
    uses.  The encoding name is converted when the arguments are parsed,
    the mode is checked against it, the file is opened next and the codec
    is looked up last. *)
Definition builtin_open (path : str) (binary writing : bool)
    (encoding : option str) : M file_obj :=
  match encoding ≫= str_arg with
  | Some e => raise e
  | None =>
      if binary && bool_decide (encoding <> None) then raise ValueError
      else
        cs <- (if writing then raw_open_write path else raw_open_read path) ;;
        if binary then ret (FileObj cs None)
        else
          cd <- (fun w =>
                   match lookup_codec (lib w) (default (py "utf-8") encoding) with
                   | Some cd => (w, inr cd)
                   | None => (w, inl LookupError)
                   end) ;;
          ret (FileObj cs (Some cd))
  end.

(** [f.read()]. *)
Definition file_read (f : file_obj) : M content := fun w =>
  let b := file_data w (fo_path f) in
  match fo_codec f with
  | None => (w, inr (Bytes b))
  | Some cd =>
      match decode cd b with
      | Some s => (w, inr (Text (universal_newlines s)))
      | None => (w, inl UnicodeDecodeError)
      end
  end.

(** [f.write(s)] in text mode; on POSIX ["\n"] is written as it is. *)
Definition file_write (f : file_obj) (s : str) : M unit :=
  match fo_codec f with
  | None => raise TypeError
  | Some cd =>
      match encode cd s with
      | Some b => file_store (fo_path f) b
      | None => raise UnicodeEncodeError
      end
  end.

(** ** [fnmatch] *)

Inductive glob_item :=
  | GStar
  | GAny
  | GLit (c : codepoint)
  | GClass (negated : bool) (stuff : str).

(** Cut [s] at its first closing bracket. *)
Fixpoint find_rbrack (s : str) : option (str * str) :=
  match s with
  | [] => None
  | c :: s' =>
      if c =? RBRACK then Some ([], s')
      else match find_rbrack s' with
           | Some (a, b) => Some (c :: a, b)
           | None => None
           end
  end.

(** The bracket expression that starts after a ['[']: negation flag,
    members, rest of the pattern.  A [']'] in first position is a member. *)
Definition bracket (s : str) : option (bool * str * str) :=
  let (neg, s1) :=
    match s with
    | c :: r => if c =? BANG then (true, r) else (false, s)
    | [] => (false, s)
    end in
  match s1 with
  | c :: r =>
      if c =? RBRACK then
        match find_rbrack r with
        | Some (a, b) => Some (neg, RBRACK :: a, b)
        | None => None
        end
      else
        match find_rbrack s1 with
        | Some (a, b) => Some (neg, a, b)
        | None => None
        end
  | [] => None
  end.

(** [fnmatch.translate], to pattern items instead of a regular expression;
    an unclosed ['['] is a literal. *)
Fixpoint fnmatch_translate (fuel : nat) (pat : str) : list glob_item :=
  match fuel with
  | O => []
  | S fuel' =>
      match pat with
      | [] => []
      | c :: rest =>
          if c =? STAR then GStar :: fnmatch_translate fuel' rest
          else if c =? QMARK then GAny :: fnmatch_translate fuel' rest
          else if c =? LBRACK then
            match bracket rest with
            | Some (neg, stuff, rest') =>
                GClass neg stuff :: fnmatch_translate fuel' rest'
            | None => GLit LBRACK :: fnmatch_translate fuel' rest
            end
          else GLit c :: fnmatch_translate fuel' rest
      end
  end.

(** Membership in the members of a bracket expression: single characters
    and [lo-hi] ranges (the escapes [fnmatch.translate] adds for the
    regular-expression engine are not modelled). *)
Fixpoint class_mem (stuff : str) (c : codepoint) : bool :=
  match stuff with
  | [] => false
  | lo :: rest =>
      match rest with
      | d :: hi :: rest' =>
          if d =? DASH then ((lo <=? c) && (c <=? hi)) || class_mem rest' c
          else (c =? lo) || class_mem rest c
      | _ => (c =? lo) || class_mem rest c
      end
  end.

(** Does the whole of [s] match the items? *)
Fixpoint gmatch (items : list glob_item) (s : str) : bool :=
  match items with
  | [] => bool_decide (s = [])
  | GStar :: r =>
      (fix star (s : str) : bool :=
         gmatch r s || match s with [] => false | _ :: s' => star s' end) s
  | GAny :: r =>
      match s with _ :: s' => gmatch r s' | [] => false end
  | GLit c :: r =>
      match s with c' :: s' => (c' =? c) && gmatch r s' | [] => false end
  | GClass neg stuff :: r =>
      match s with
      | c' :: s' => xorb neg (class_mem stuff c') && gmatch r s'
      | [] => false
      end
  end.

(** [fnmatch.filter(names, pat)]; [normcase] is the identity on POSIX. *)
Definition fnmatch_filter (names : list str) (pat : str) : list str :=
  List.filter (gmatch (fnmatch_translate (length pat) pat)) names.

(** ** [glob] *)

Definition has_magic (s : str) : bool :=
  existsb (fun c => (c =? STAR) || (c =? QMARK) || (c =? LBRACK)) s.

Definition _ishidden (p : str) : bool :=
  match p with c :: _ => c =? DOT | [] => false end.

Definition _join (dirname basename : str) : str :=
  match dirname, basename with
  | [], _ => basename
  | _, [] => dirname
  | _, _ => os_path_join dirname basename
  end.

Definition is_dir_node (n : node) : bool :=
  match n with Dir _ => true | File _ => false end.

(** The names in a directory.  [_iterdir] catches the [OSError] of
    [os.scandir] (the directory is then empty to it) and nothing else:
    a path the interpreter refuses makes the whole call raise. *)
Definition _listdir (w : world) (dirname : str) (dironly : bool)
    : pyerror + list str :=
  let arg := match dirname with [] => [DOT] | _ => dirname end in
  match os_stat w arg with
  | inr (Dir es) =>
      inr (map fst (List.filter (fun e => negb dironly || is_dir_node (snd e)) es))
  | inr (File _) => inr []
  | inl (Errno _) => inr []
  | inl f => inl (path_error f arg)
  end.

Definition _glob1 (w : world) (dirname pattern : str) (dironly : bool)
    : pyerror + list str :=
  match _listdir w dirname dironly with
  | inl e => inl e
  | inr names =>
      let names :=
        if negb (_ishidden pattern)
        then List.filter (fun x => negb (_ishidden x)) names
        else names in
      inr (fnmatch_filter names pattern)
  end.

Definition _glob0 (w : world) (dirname basename : str) (dironly : bool) : list str :=
  match basename with
  | [] => if os_path_isdir w dirname then [basename] else []
  | _ => if os_path_exists w (_join dirname basename) then [basename] else []
  end.

(** A generator run to its end: the items it yields and, when it stops
    on one, the exception. *)
Definition generated : Type := list str * option pyerror.

Definition generate (r : pyerror + list str) : generated :=
  match r with
  | inr l => (l, None)
  | inl e => ([], Some e)
  end.

(** [for d in dirs: for x in f(d): yield x], where the generator [dirs]
    has yielded [ds] and stops with [stop]: what [f] raises on an item
    comes before what [dirs] raises later. *)
Fixpoint generate_in (f : str -> pyerror + list str) (ds : list str)
    (stop : option pyerror) : generated :=
  match ds with
  | [] => ([], stop)
  | d :: ds' =>
      match f d with
      | inl e => ([], Some e)
      | inr l => let (r, e) := generate_in f ds' stop in (l ++ r, e)
      end
  end.

(** [glob._iglob] with [recursive=False], [include_hidden=False] and no
    [root_dir]; each call on a directory part works on a shorter
    pattern. *)
Fixpoint _iglob (fuel : nat) (w : world) (pathname : str) (dironly : bool)
    : generated :=
  match fuel with
  | O => ([], None)
  | S fuel' =>
      let (dirname, basename) := os_path_split pathname in
      if negb (has_magic pathname) then
        match basename with
        | [] => (if os_path_isdir w dirname then [pathname] else [], None)
        | _ => (if os_path_exists w pathname then [pathname] else [], None)
        end
      else
        match dirname with
        | [] => generate (_glob1 w [] basename dironly)
        | _ =>
            let dirs :=
              if negb (str_eqb dirname pathname) && has_magic dirname
              then _iglob fuel' w dirname true
              else ([dirname], None) in
            let glob_in_dir :=
              if has_magic basename then _glob1
              else fun w d b dironly => inr (_glob0 w d b dironly) in
            generate_in
              (fun d =>
                 match glob_in_dir w d basename dironly with
                 | inr names => inr (map (os_path_join d) names)
                 | inl e => inl e
                 end)
              dirs.1 dirs.2
        end
  end.

(** [glob.glob(pathname)]: the list of what [_iglob] yields, or the
    exception it stops on. *)
Definition glob_glob (w : world) (pathname : str) : pyerror + list str :=
  match _iglob (S (length pathname)) w pathname false with
  | (l, None) => inr l
  | (_, Some e) => inl e
  end.

(** ** [shutil.copyfile] *)

Definition shutil_copyfile (src dst : str) : M unit :=
  same <- _samefile src dst ;;
  if same : bool then raise SameFileError
  else
    (* the loop that looks for named pipes: there are none here, but both
       paths are stat'ed *)
    for_each [src; dst]
      (fun fn => except_OSError (_stat fn ;;; ret tt) (ret tt)) ;;;
    fsrc <- raw_open_read src ;;
    fdst <- (fun w =>
               match raw_open_write dst w with
               | (w', inl (IsADirectoryError f)) =>
                   if os_path_exists w' dst then (w', inl (IsADirectoryError f))
                   else (w', inl (FileNotFoundError
                                    (py "Directory does not exist: " ++ dst)))
               | r => r
               end) ;;
    data <- gets (fun w => file_data w fsrc) ;;
    file_store fdst data.

(** ** List objects *)

Definition list_get (l : loc) : M (list str) := fun w =>
  match heap w !! l with
  | Some v => (w, inr v)
  | None => (w, inl SystemError)
  end.

(** [l.copy()]: a new list object with the same items. *)
Definition list_copy (l : loc) : M loc :=
  v <- list_get l ;;
  fun w =>
    let l' := fresh (dom (heap w)) in
    (set_heap w (<[l' := v]> (heap w)), inr l').

(** [l.pop(i)] for an index counted from the front. *)
Definition list_pop (l : loc) (i : nat) : M str :=
  v <- list_get l ;;
  match v !! i with
  | Some x => fun w => (set_heap w (<[l := delete i v]> (heap w)), inr x)
  | None => raise IndexError
  end.

(** [[i for i, item in enumerate(l) if not keep(item)]], counting from [i]. *)
Fixpoint indices_where_not (keep : str -> bool) (i : nat) (l : list str) : list nat :=
  match l with
  | [] => []
  | x :: l' =>
      if keep x then indices_where_not keep (S i) l'
      else i :: indices_where_not keep (S i) l'
  end.

(** ** The module *)

Definition __default_encoding__ : str := py "utf-8".

Definition __raise_fnf_error__ {A} (path : str) : M A :=
  raise (FileNotFoundError path).

(** The argument of [os.path.isdir] is the name [str], the builtin type,
    not the parameter [path]. *)
Definition __validate_path_dir__ (path : str) : M unit :=
  ok <- os_path_isdir_obj TypeObject_str ;;
  if negb ok then __raise_fnf_error__ path else ret tt.

Definition __pop_none_file_paths__ (file_path_list : loc) : M (list str) :=
  items <- list_get file_path_list ;;
  none_file_idx_list <-
    gets (fun w => indices_where_not (os_path_isfile w) 0 items) ;;
  let none_file_idx_list := rev none_file_idx_list in
  none_file_list <- map_m (list_pop file_path_list) none_file_idx_list ;;
  ret (rev none_file_list).

Definition get_file_list (src_dir suffix prefix : str) : M (list str) :=
  fun w => (w, glob_glob w (src_dir ++ [SEP] ++ suffix ++ [STAR] ++ prefix)).

Definition read_file (filepath encoding : str) (is_binary : bool) : M content :=
  file_obj <- builtin_open filepath is_binary false (Some encoding) ;;
  context <- file_read file_obj ;;
  ret context.

(** [json.loads(s)] for a [str], or for [bytes] taken as UTF-8. *)
Definition json_loads_content (c : content) : M json := fun w =>
  let text :=
    match c with
    | Text s => Some s
    | Bytes b =>
        match lookup_codec (lib w) (py "utf-8") with
        | Some cd => decode cd b
        | None => None
        end
    end in
  match text with
  | Some s => (w, json_loads (lib w) s)
  | None => (w, inl UnicodeDecodeError)
  end.

Definition read_json_file (filepath encoding : str) : M json :=
  context <- read_file filepath encoding false ;;
  json_loads_content context.

Definition read_file_lines (filepath encoding : str) : M (list str) :=
  context <- read_file filepath encoding false ;;
  match context with
  | Text s => ret (str_split s LF)
  | Bytes _ => raise TypeError
  end.

Definition copy_file (src dest : str) : M unit :=
  let dest :=
    match os_path_basename dest with
    | [] => dest
    | _ => os_path_join dest (os_path_basename src)
    end in
  shutil_copyfile src dest.

(** Lines 97-106 of [copy_files]: what runs once the destination has been
    validated.  The loop reads the items of [file_path_list] once: its
    body does not touch the list. *)
Definition copy_files_body (src_list : loc) (dest_dir : str)
    (ignore_none_file : bool) : M unit :=
  file_path_list <- list_copy src_list ;;
  none_exist_file_path_list <- __pop_none_file_paths__ file_path_list ;;
  (match none_exist_file_path_list with
   | _ :: _ =>
       if negb ignore_none_file
       then __raise_fnf_error__ (str_join (py ", ") none_exist_file_path_list)
       else ret tt
   | [] => ret tt
   end) ;;;
  srcs <- list_get file_path_list ;;
  for_each srcs
    (fun src =>
       shutil_copyfile src (os_path_join dest_dir (os_path_basename src))).

Definition copy_files (src_list : loc) (dest_dir : str)
    (ignore_none_file : bool) : M unit :=
  __validate_path_dir__ dest_dir ;;;
  copy_files_body src_list dest_dir ignore_none_file.

Definition convert_file_charset (src_path dest_path src_encoding dest_encoding : str)
    : M unit :=
  src_file_obj <- builtin_open src_path false false (Some src_encoding) ;;
  dest_file_obj <- builtin_open dest_path false true (Some dest_encoding) ;;
  text <- file_read src_file_obj ;;
  match text with
  | Text s => file_write dest_file_obj s
  | Bytes _ => raise TypeError
  end.

(** ** A concrete run-time environment

    The general theorems hold for every codec registry and JSON reader.
    The closed examples run on this one: UTF-8 in full, the single-byte
    (JIS X 0201) part of CPython's [shift_jis] codec (the double-byte
    JIS X 0208 table is not tabulated: this instance rejects those
    characters), and a reader for a fragment of JSON. *)

Module Utf8.

Definition cont (x : N) : bool := (128 <=? x) && (x <? 192).
Definition surrogate (c : N) : bool := (55296 <=? c) && (c <? 57344).

Fixpoint decode (b : bytes) : option str :=
  match b with
  | [] => Some []
  | b0 :: r0 =>
      if b0 <? 128 then option_map (cons b0) (decode r0)
      else if (194 <=? b0) && (b0 <? 224) then
        match r0 with
        | b1 :: r1 =>
            if cont b1
            then option_map (cons ((b0 - 192) * 64 + (b1 - 128))) (decode r1)
            else None
        | _ => None
        end
      else if (224 <=? b0) && (b0 <? 240) then
        match r0 with
        | b1 :: r1 =>
            match r1 with
            | b2 :: r2 =>
                let c := (b0 - 224) * 4096 + (b1 - 128) * 64 + (b2 - 128) in
                if cont b1 && cont b2 && (2048 <=? c) && negb (surrogate c)
                then option_map (cons c) (decode r2)
                else None
            | _ => None
            end
        | _ => None
        end
      else if (240 <=? b0) && (b0 <? 245) then
        match r0 with
        | b1 :: r1 =>
            match r1 with
            | b2 :: r2 =>
                match r2 with
                | b3 :: r3 =>
                    let c := (b0 - 240) * 262144 + (b1 - 128) * 4096
                             + (b2 - 128) * 64 + (b3 - 128) in
                    if cont b1 && cont b2 && cont b3
                       && (65536 <=? c) && (c <=? 1114111)
                    then option_map (cons c) (decode r3)
                    else None
                | _ => None
                end
            | _ => None
            end
        | _ => None
        end
      else None
  end.

Definition encode1 (c : codepoint) : option bytes :=
  if c <? 128 then Some [c]
  else if c <? 2048 then Some [192 + c / 64; 128 + c mod 64]
  else if c <? 65536 then
    if surrogate c then None
    else Some [224 + c / 4096; 128 + (c / 64) mod 64; 128 + c mod 64]
  else if c <=? 1114111 then
    Some [240 + c / 262144; 128 + (c / 4096) mod 64;
          128 + (c / 64) mod 64; 128 + c mod 64]
  else None.

Fixpoint encode (s : str) : option bytes :=
  match s with
  | [] => Some []
  | c :: s' =>
      match encode1 c, encode s' with
      | Some b, Some bs => Some (b ++ bs)
      | _, _ => None
      end
  end.

End Utf8.

Module ShiftJis.

Definition decode1 (b : N) : option codepoint :=
  if b <? 128 then Some b
  else if (161 <=? b) && (b <=? 223) then Some (b + 65216)
  else None.

Fixpoint decode (b : bytes) : option str :=
  match b with
  | [] => Some []
  | b0 :: r =>
      match decode1 b0, decode r with
      | Some c, Some s => Some (c :: s)
      | _, _ => None
      end
  end.

(** The yen sign and the overline are encoded on the bytes of the
    backslash and the tilde. *)
Definition encode1 (c : codepoint) : option N :=
  if c <? 128 then Some c
  else if c =? 165 then Some 92
  else if c =? 8254 then Some 126
  else if (65377 <=? c) && (c <=? 65439) then Some (c - 65216)
  else None.

Fixpoint encode (s : str) : option bytes :=
  match s with
  | [] => Some []
  | c :: s' =>
      match encode1 c, encode s' with
      | Some b, Some bs => Some (b :: bs)
      | _, _ => None
      end
  end.

End ShiftJis.

Module MiniJson.

Inductive token :=
  | TLBrace | TRBrace | TLBracket | TRBracket | TColon | TComma
  | TString (s : str)
  | TAtom (s : str).

Inductive lex_state :=
  | Outside
  | InAtom (acc : str)
  | InString (acc : str)
  | InEscape (acc : str).

Definition is_ws (c : codepoint) : bool :=
  (c =? 32) || (c =? 9) || (c =? LF) || (c =? CR).

Definition punct (c : codepoint) : option token :=
  if c =? 123 then Some TLBrace
  else if c =? 125 then Some TRBrace
  else if c =? 91 then Some TLBracket
  else if c =? 93 then Some TRBracket
  else if c =? 58 then Some TColon
  else if c =? 44 then Some TComma
  else None.

(** The character a two-character escape stands for; [\uXXXX] is outside
    the fragment. *)
Definition escape (c : codepoint) : option codepoint :=
  if (c =? 34) || (c =? 92) || (c =? 47) then Some c
  else if c =? 98 then Some 8
  else if c =? 102 then Some 12
  else if c =? 110 then Some LF
  else if c =? 114 then Some CR
  else if c =? 116 then Some 9
  else None.

Fixpoint lex (st : lex_state) (s : str) : option (list token) :=
  match s with
  | [] =>
      match st with
      | Outside => Some []
      | InAtom acc => Some [TAtom (rev acc)]
      | _ => None
      end
  | c :: s' =>
      match st with
      | Outside =>
          if is_ws c then lex Outside s'
          else if c =? 34 then lex (InString []) s'
          else match punct c with
               | Some t => option_map (cons t) (lex Outside s')
               | None => lex (InAtom [c]) s'
               end
      | InAtom acc =>
          if is_ws c then option_map (cons (TAtom (rev acc))) (lex Outside s')
          else if c =? 34
          then option_map (cons (TAtom (rev acc))) (lex (InString []) s')
          else match punct c with
               | Some t =>
                   option_map (fun ts => TAtom (rev acc) :: t :: ts)
                              (lex Outside s')
               | None => lex (InAtom (c :: acc)) s'
               end
      | InString acc =>
          if c <? 32 then None
          else if c =? 34
          then option_map (cons (TString (rev acc))) (lex Outside s')
          else if c =? 92 then lex (InEscape acc) s'
          else lex (InString (c :: acc)) s'
      | InEscape acc =>
          match escape c with
          | Some e => lex (InString (e :: acc)) s'
          | None => None
          end
      end
  end.

Definition is_digit (c : codepoint) : bool := (48 <=? c) && (c <=? 57).

(** Integers without a leading zero. *)
Definition is_int (a : str) : bool :=
  let digits := match a with c :: r => if c =? DASH then r else a | [] => a end in
  match digits with
  | [] => false
  | [d] => is_digit d
  | d :: _ => is_digit d && negb (d =? 48) && forallb is_digit digits
  end.

Definition atom (a : str) : option json :=
  if str_eqb a (py "null") then Some JNull
  else if str_eqb a (py "true") then Some (JBool true)
  else if str_eqb a (py "false") then Some (JBool false)
  else if is_int a then Some (JNumber a)
  else None.

Fixpoint parse (fuel : nat) (ts : list token) : option (json * list token) :=
  match fuel with
  | O => None
  | S f =>
      match ts with
      | TAtom a :: r => option_map (fun v => (v, r)) (atom a)
      | TString s :: r => Some (JString s, r)
      | TLBracket :: TRBracket :: r => Some (JArray [], r)
      | TLBracket :: r =>
          (fix items (n : nat) (ts : list token) (acc : list json) :=
             match n with
             | O => None
             | S n' =>
                 match parse f ts with
                 | Some (v, TComma :: r') => items n' r' (v :: acc)
                 | Some (v, TRBracket :: r') => Some (JArray (rev (v :: acc)), r')
                 | _ => None
                 end
             end) f r []
      | TLBrace :: TRBrace :: r => Some (JObject [], r)
      | TLBrace :: r =>
          (fix members (n : nat) (ts : list token) (acc : list (str * json)) :=
             match n with
             | O => None
             | S n' =>
                 match ts with
                 | TString k :: TColon :: r1 =>
                     match parse f r1 with
                     | Some (v, TComma :: r') => members n' r' ((k, v) :: acc)
                     | Some (v, TRBrace :: r') =>
                         Some (JObject (rev ((k, v) :: acc)), r')
                     | _ => None
                     end
                 | _ => None
                 end
             end) f r []
      | _ => None
      end
  end.

Definition loads (s : str) : option json :=
  match lex Outside s with
  | Some ts =>
      match parse (S (length ts)) ts with
      | Some (v, []) => Some v
      | _ => None
      end
  | None => None
  end.

End MiniJson.

Definition std_codecs (name : str) : option codec :=
  if str_eqb name (py "utf-8") then Some (Codec Utf8.decode Utf8.encode)
  else if str_eqb name (py "shift_jis")
  then Some (Codec ShiftJis.decode ShiftJis.encode)
  else None.

Definition std_json_loads (s : str) : pyerror + json :=
  match MiniJson.loads s with
  | Some v => inr v
  | None => inl JSONDecodeError
  end.

Definition std_lib : pylib := PyLib std_codecs std_json_loads.

(** A small machine: [/tmp/a.txt] holds ["a\r\nb"], [/tmp/b.txt] holds
    ["a\nb\nc"], [/tmp/kana.txt] holds two half-width katakana in UTF-8,
    [/tmp/yen.txt] a yen sign in UTF-8,
    [/tmp/data.json] a JSON document with Windows line ends; [/out] is
    an empty directory and [/d] holds [ab], [.x] and [a].  The store
    holds one list object. *)
Definition demo_json : bytes :=
  py "{" ++ [34] ++ py "k" ++ [34] ++ py ":" ++ [CR; LF] ++ py " [1, true]}".

Definition demo_root : node :=
  Dir [ (py "tmp",
         Dir [ (py "a.txt", File (py "a" ++ [CR; LF] ++ py "b"));
               (py "b.txt", File (py "a" ++ [LF] ++ py "b" ++ [LF] ++ py "c"));
               (py "kana.txt", File [239; 189; 177; 239; 189; 178]);
               (py "yen.txt", File [194; 165]);
               (py "data.json", File demo_json) ]);
        (py "out", Dir []);
        (py "d",
         Dir [ (py "ab", File []); (py ".x", File []); (py "a", File []) ]) ].

Definition demo_list : loc := 0%nat.

Definition demo : world :=
  World demo_root []
        (<[demo_list := [py "/tmp/a.txt"; py "/tmp/missing.txt"; py "/tmp/b.txt"]]> ∅)
        std_lib.

(** A second state, for the failures of the readers and of the
    conversion: a file that is not UTF-8, a text Shift_JIS cannot encode,
    and a destination that holds something. *)
Definition demo_err_root : node :=
  Dir [ (py "tmp",
         Dir [ (py "a.txt", File (py "a" ++ [CR; LF] ++ py "b"));
               (py "bad.bin", File [255]);
               (py "euro.txt", File [226; 130; 172]) ]);
        (py "out", Dir [ (py "old.txt", File (py "keep")) ]) ].

Definition demo_err : world := World demo_err_root [] ∅ std_lib.

(** ** Vocabulary of the specification *)

Definition is_dir_opt (o : option node) : bool :=
  match o with Some (Dir _) => true | _ => false end.

(** [p] names a regular file, or a free name in an existing directory:
    what [open(p, 'w')] needs to succeed. *)
Definition writable (w : world) (p : str) : bool :=
  match resolve w p with
  | inr cs => negb (is_dir_opt (tree_get cs (root w)))
  | inl _ => false
  end.

(** Two states with the same directories, working directory, store and
    environment: they differ by the regular files only. *)
Definition same_dirs (w w' : world) : Prop :=
  cwd w' = cwd w /\ lib w' = lib w /\ heap w' = heap w /\
  forall c, is_dir_opt (tree_get c (root w')) = is_dir_opt (tree_get c (root w)).

(** [n] begins with [a] and what follows ends with [b]. *)
Definition affix_match (a b n : str) : bool :=
  startswith a n && endswith b (drop (length a) n).

(** The directory [get_file_list] lists for [src_dir]: the directory part
    of a pattern under [src_dir ++ "/"]. *)
Definition listed_dir (src_dir : str) : str :=
  fst (os_path_split (src_dir ++ [SEP])).

Definition is_magic (c : codepoint) : bool :=
  (c =? STAR) || (c =? QMARK) || (c =? LBRACK).

Definition no_magic (s : str) : Prop := Forall (fun c => is_magic c = false) s.
Definition no_sep (s : str) : Prop := Forall (fun c => is_sep c = false) s.
Definition no_cr (s : str) : Prop := Forall (fun c => c <> CR) s.

(** Without links, two paths name the same file when both exist and
    lead to the same place. *)
Definition same_file (w : world) (a b : str) : bool :=
  match os_stat w a, os_stat w b, resolve w a, resolve w b with
  | inr _, inr _, inr ca, inr cb => bool_decide (ca = cb)
  | _, _, _, _ => false
  end.

(** Where [copy_file] copies to. *)
Definition copy_target (src dest : str) : str :=
  match os_path_basename dest with
  | [] => dest
  | _ => os_path_join dest (os_path_basename src)
  end.

(** The last part of [shutil.copyfile], once its checks are passed: open
    both files and copy. *)
Definition copyfile_data (src dst : str) : M unit :=
  fsrc <- raw_open_read src ;;
  fdst <- (fun w =>
             match raw_open_write dst w with
             | (w', inl (IsADirectoryError f)) =>
                 if os_path_exists w' dst then (w', inl (IsADirectoryError f))
                 else (w', inl (FileNotFoundError
                                  (py "Directory does not exist: " ++ dst)))
             | r => r
             end) ;;
  data <- gets (fun w => file_data w fsrc) ;;
  file_store fdst data.

(** Computations that leave the store of list objects alone. *)
Definition keeps_heap {A} (c : M A) : Prop :=
  forall w, heap (fst (c w)) = heap w.

(** An entry name as a file system has them: not empty, without a
    separator, neither ["."] nor [".."], made of the characters of a
    path and of at most [NAME_MAX] bytes. *)
Definition valid_name (n : str) : bool :=
  negb (str_eqb n []) && forallb (fun c => negb (is_sep c)) n &&
  negb (str_eqb n [DOT]) && negb (str_eqb n [DOT; DOT]) &&
  fs_str n && (fs_length n <=? NAME_MAX).

(** * Properties of the model *)
(** ** Directories *)

Lemma str_eqb_true a b : str_eqb a b = true <-> a = b.
Proof. unfold str_eqb. apply bool_decide_eq_true. Qed.

Lemma str_eqb_refl a : str_eqb a a = true.
Proof. by apply str_eqb_true. Qed.

Lemma str_eqb_neq a b : a <> b -> str_eqb a b = false.
Proof. unfold str_eqb. intros. by apply bool_decide_eq_false. Qed.

Lemma assoc_set_same {A} k (v : A) l : assoc k (assoc_set k v l) = Some v.
Proof.
  induction l as [|[k' v'] l IH]; simpl.
  - by rewrite str_eqb_refl.
  - destruct (str_eqb k' k) eqn:E; simpl.
    + by rewrite str_eqb_refl.
    + by rewrite E.
Qed.

Lemma assoc_set_other {A} k k2 (v : A) l :
  k2 <> k -> assoc k2 (assoc_set k v l) = assoc k2 l.
Proof.
  intros Hne. induction l as [|[k' v'] l IH]; simpl.
  - rewrite str_eqb_neq; auto.
  - destruct (str_eqb k' k) eqn:E; simpl.
    + apply str_eqb_true in E. subst k'.
      rewrite !str_eqb_neq; auto.
    + by rewrite IH.
Qed.

Lemma tree_get_put_same cs b : forall n n',
  tree_put cs b n = Some n' -> tree_get cs n' = Some (File b).
Proof.
  induction cs as [|c cs IH]; intros n n'; simpl; [done|].
  destruct n as [d|es]; [done|].
  destruct cs as [|c2 cs].
  - intros [= <-]. simpl. by rewrite assoc_set_same.
  - destruct (assoc c es) as [m|]; [|done].
    destruct (tree_put (c2 :: cs) b m) as [m'|] eqn:E; [|done].
    intros [= <-]. cbn [tree_get]. rewrite assoc_set_same. by eapply IH.
Qed.

Lemma tree_put_again cs b b' : forall n n',
  tree_put cs b n = Some n' -> exists n'', tree_put cs b' n' = Some n''.
Proof.
  induction cs as [|c cs IH]; intros n n'; simpl; [done|].
  destruct n as [d|es]; [done|].
  destruct cs as [|c2 cs].
  - intros [= <-]. eauto.
  - destruct (assoc c es) as [m|]; [|done].
    destruct (tree_put (c2 :: cs) b m) as [m'|] eqn:E; [|done].
    intros [= <-]. rewrite assoc_set_same.
    destruct (IH _ _ E) as [m'' ->]. eauto.
Qed.

(** Writing a file where no directory stands keeps every directory. *)
Lemma tree_put_keeps_dirs cs b : forall n n',
  tree_put cs b n = Some n' ->
  is_dir_opt (tree_get cs n) = false ->
  forall cs2, is_dir_opt (tree_get cs2 n') = is_dir_opt (tree_get cs2 n).
Proof.
  induction cs as [|c cs IH]; intros n n'; simpl; [done|].
  destruct n as [d|es]; [done|].
  destruct cs as [|c2 cs].
  - intros [= <-] Hnd [|k cs2]; [done|]. simpl.
    destruct (decide (k = c)) as [->|Hk].
    + rewrite assoc_set_same.
      destruct (assoc c es) as [m|]; simpl in *.
      * destruct m; [|done]. by destruct cs2.
      * by destruct cs2.
    + by rewrite assoc_set_other.
  - destruct (assoc c es) as [m|] eqn:Em; [|done].
    destruct (tree_put (c2 :: cs) b m) as [m'|] eqn:E; [|done].
    intros [= <-] Hnd [|k cs2]; [done|]. cbn [tree_get].
    destruct (decide (k = c)) as [->|Hk].
    + rewrite assoc_set_same, Em. by eapply IH.
    + by rewrite assoc_set_other.
Qed.

(** ... and every other regular file. *)
Lemma tree_put_keeps_files cs b : forall n n',
  tree_put cs b n = Some n' ->
  is_dir_opt (tree_get cs n) = false ->
  forall cs2 d, cs2 <> cs ->
    tree_get cs2 n = Some (File d) -> tree_get cs2 n' = Some (File d).
Proof.
  induction cs as [|c cs IH]; intros n n'; simpl; [done|].
  destruct n as [d0|es]; [done|].
  destruct cs as [|c2 cs].
  - intros [= <-] Hnd [|k cs2] d Hne; [done|]. simpl.
    destruct (decide (k = c)) as [->|Hk].
    + rewrite assoc_set_same.
      destruct (assoc c es) as [m|]; simpl in *; [|done].
      destruct m; [|done]. destruct cs2; [done|]. done.
    + by rewrite assoc_set_other.
  - destruct (assoc c es) as [m|] eqn:Em; [|done].
    destruct (tree_put (c2 :: cs) b m) as [m'|] eqn:E; [|done].
    intros [= <-] Hnd [|k cs2] d Hne; [done|]. cbn [tree_get].
    destruct (decide (k = c)) as [->|Hk].
    + rewrite assoc_set_same, Em. eapply IH; eauto. congruence.
    + by rewrite assoc_set_other.
Qed.

Lemma tree_get_app a : forall b n,
  tree_get (a ++ b) n =
  match tree_get a n with Some m => tree_get b m | None => None end.
Proof.
  induction a as [|c a IH]; intros b n; simpl; [done|].
  destruct n; [done|]. destruct (assoc c entries); [|done]. apply IH.
Qed.

Lemma tree_get_prefix_dir a b n :
  is_dir_opt (tree_get (a ++ b) n) = true -> is_dir_opt (tree_get a n) = true.
Proof.
  rewrite tree_get_app. destruct (tree_get a n) as [[d|es]|]; simpl; auto.
  by destruct b.
Qed.

Lemma tree_put_child par c b : forall n,
  is_dir_opt (tree_get par n) = true ->
  exists n', tree_put (par ++ [c]) b n = Some n'.
Proof.
  induction par as [|k par IH]; intros n; simpl.
  - destruct n; [done|]. eauto.
  - destruct n as [d|es]; [done|].
    destruct (assoc k es) as [m|]; [|done]. intros H.
    destruct (IH _ H) as [m' ->].
    destruct (par ++ [c]) eqn:E; [by destruct par|]. eauto.
Qed.

Lemma removelast_snoc {A} (l : list A) x : removelast (l ++ [x]) = l.
Proof. apply removelast_last. Qed.

(** A successful resolution ends on a directory or in one. *)
Lemma namei_result r : forall cs cur res,
  namei r cur cs = inr res -> cs <> [] ->
  is_dir_opt (tree_get res r) = true \/
  exists par c, res = par ++ [c] /\ is_dir_opt (tree_get par r) = true.
Proof.
  induction cs as [|c cs IH]; intros cur res; [done|]. simpl.
  destruct (tree_get cur r) as [[d|es]|] eqn:Ecur; [done| |done].
  intros H _.
  assert (Hcur : is_dir_opt (tree_get cur r) = true) by by rewrite Ecur.
  destruct (str_eqb c [] || str_eqb c [DOT]).
  { destruct cs; [|by apply IH in H]. simpl in H. injection H as <-. auto. }
  destruct (str_eqb c [DOT; DOT]).
  { destruct cs; [|by apply IH in H]. simpl in H. injection H as <-. left.
    destruct cur as [|x l _] using rev_ind; [done|].
    rewrite removelast_snoc. by apply tree_get_prefix_dir in Hcur. }
  destruct (NAME_MAX <? fs_length c); [done|].
  destruct cs; [|by apply IH in H]. simpl in H. injection H as <-.
  right. eauto.
Qed.

Lemma namei_same_dirs r1 r2 :
  (forall c, is_dir_opt (tree_get c r1) = is_dir_opt (tree_get c r2)) ->
  forall cs cur res, namei r1 cur cs = inr res -> namei r2 cur cs = inr res.
Proof.
  intros Hd. induction cs as [|c cs IH]; intros cur res; simpl; [done|].
  specialize (Hd cur).
  destruct (tree_get cur r1) as [[d|es]|]; [done| |done].
  simpl in Hd. destruct (tree_get cur r2) as [[d'|es']|]; try done.
  repeat case_match; try done; apply IH.
Qed.

(** ** Path resolution and open *)

Lemma str_split_nonempty s sep : str_split s sep <> [].
Proof.
  induction s as [|c s IH]; simpl; [done|].
  destruct (c =? sep); [done|]. by destruct (str_split s sep).
Qed.

Lemma set_root_id w : set_root w (root w) = w.
Proof. by destruct w. Qed.

Lemma set_heap_id w : set_heap w (heap w) = w.
Proof. by destruct w. Qed.

(** A path resolves when its argument is accepted and the walk ends. *)
Lemma resolve_inr w p cs :
  resolve w p = inr cs <-> path_arg p = None /\ walk w p = inr cs.
Proof.
  unfold resolve. destruct (path_arg p) as [f|].
  - split; [done|by intros [? _]].
  - destruct (walk w p) as [e|cs']; split; try done.
    + by intros [_ ?].
    + by intros [= ->].
    + by intros [_ [= ->]].
Qed.

Lemma resolve_errno w p e :
  path_arg p = None -> walk w p = inl e -> resolve w p = inl (Errno e).
Proof. unfold resolve. by intros -> ->. Qed.

Lemma path_arg_fs_str p : path_arg p = None -> fs_str p = true.
Proof.
  unfold path_arg, fs_str.
  destruct (forallb fs_encodable p); [|done]. simpl.
  by destruct (existsb is_null p).
Qed.

Lemma path_arg_nonempty p : path_arg p = None -> p <> [].
Proof. by intros H ->. Qed.

Lemma path_arg_refused p :
  fs_str p = false ->
  path_arg p = Some Unencodable \/ path_arg p = Some EmbeddedNull.
Proof.
  unfold path_arg, fs_str.
  destruct (forallb fs_encodable p); simpl; [|by left].
  destruct (existsb is_null p); [by right|done].
Qed.

Lemma resolve_result w p cs :
  resolve w p = inr cs ->
  is_dir_opt (tree_get cs (root w)) = true \/
  exists par c, cs = par ++ [c] /\ is_dir_opt (tree_get par (root w)) = true.
Proof.
  intros [_ H]%resolve_inr.
  eapply namei_result; [exact H|apply str_split_nonempty].
Qed.

Lemma same_dirs_trans w1 w2 w3 :
  same_dirs w1 w2 -> same_dirs w2 w3 -> same_dirs w1 w3.
Proof.
  intros (?&?&?&Hd1) (?&?&?&Hd2).
  split; [congruence|]. split; [congruence|]. split; [congruence|].
  intros c. by rewrite Hd2, Hd1.
Qed.

Lemma same_dirs_walk w w' p cs :
  same_dirs w w' -> walk w p = inr cs -> walk w' p = inr cs.
Proof.
  intros (Hc&_&_&Hd). unfold walk, start_dir. rewrite Hc.
  apply namei_same_dirs. intros k. by rewrite Hd.
Qed.

Lemma same_dirs_resolve w w' p cs :
  same_dirs w w' -> resolve w p = inr cs -> resolve w' p = inr cs.
Proof.
  intros Hs [Ha Hw]%resolve_inr. apply resolve_inr. split; [done|].
  by eapply same_dirs_walk.
Qed.

Lemma same_dirs_writable w w' p :
  same_dirs w w' -> writable w p = true -> writable w' p = true.
Proof.
  intros Hs. unfold writable.
  destruct (resolve w p) as [e|cs] eqn:E; [done|].
  rewrite (same_dirs_resolve _ _ _ _ Hs E).
  destruct Hs as (_&_&_&Hd). by rewrite Hd.
Qed.

Lemma same_dirs_put w cs b r :
  tree_put cs b (root w) = Some r ->
  is_dir_opt (tree_get cs (root w)) = false ->
  same_dirs w (set_root w r).
Proof.
  intros Hp Hnd. repeat split. simpl. intros c.
  eapply tree_put_keeps_dirs; eauto.
Qed.

Lemma os_stat_file w p b :
  os_stat w p = inr (File b) <->
  exists cs, resolve w p = inr cs /\ tree_get cs (root w) = Some (File b).
Proof.
  unfold os_stat. split.
  - destruct (resolve w p) as [e|cs]; [done|].
    destruct (tree_get cs (root w)) eqn:E; [|done]. intros [= ->]. eauto.
  - intros (cs & -> & ->). done.
Qed.

Lemma str_split_snoc_sep q sep :
  str_split (q ++ [sep]) sep = str_split q sep ++ [[]].
Proof.
  induction q as [|c q IH]; simpl.
  - by rewrite N.eqb_refl.
  - rewrite IH. destruct (c =? sep); [done|].
    destruct (str_split q sep) as [|x l] eqn:E; [by apply str_split_nonempty in E|].
    done.
Qed.

Lemma namei_app r cs1 : forall cur cs2,
  namei r cur (cs1 ++ cs2)
  = match namei r cur cs1 with
    | inr cur' => namei r cur' cs2
    | inl e => inl e
    end.
Proof.
  induction cs1 as [|c cs1 IH]; intros cur cs2; simpl; [done|].
  destruct (tree_get cur r) as [[d|es]|]; [done| |done].
  destruct (str_eqb c [] || str_eqb c [DOT]); [apply IH|].
  destruct (str_eqb c [DOT; DOT]); [apply IH|].
  destruct (NAME_MAX <? fs_length c); [done|apply IH].
Qed.

Lemma endswith_sep_inv s : endswith [SEP] s = true -> exists p, s = p ++ [SEP].
Proof.
  unfold endswith. intros H. apply str_eqb_true in H.
  exists (take (length s - length [SEP]) s).
  pose proof (take_drop (length s - length [SEP]) s) as E.
  rewrite H in E. by symmetry.
Qed.

(** A path written with a trailing slash names a directory or nothing. *)
Lemma resolve_trailing_sep w p cs :
  endswith [SEP] p = true -> resolve w p = inr cs ->
  is_dir_opt (tree_get cs (root w)) = true.
Proof.
  intros He [_ Hr]%resolve_inr. apply endswith_sep_inv in He as [q ->].
  unfold walk in Hr.
  rewrite str_split_snoc_sep, namei_app in Hr.
  destruct (namei (root w) (start_dir w (q ++ [SEP])) (str_split q SEP))
    as [e|cur]; [done|].
  simpl in Hr. destruct (tree_get cur (root w)) as [[d|es]|] eqn:Eg; try done.
  injection Hr as <-. by rewrite Eg.
Qed.

Lemma raw_open_read_file w p cs b :
  resolve w p = inr cs -> tree_get cs (root w) = Some (File b) ->
  raw_open_read p w = (w, inr cs).
Proof. unfold raw_open_read. by intros -> ->. Qed.

Lemma raw_open_read_missing w p :
  os_stat w p = inl (Errno ENOENT) -> raw_open_read p w = (w, inl (FileNotFoundError p)).
Proof.
  unfold os_stat, raw_open_read.
  destruct (resolve w p) as [e|cs].
  - by intros [= ->].
  - by destruct (tree_get cs (root w)).
Qed.

(** Opening for reading fails as [os.stat] does. *)
Lemma raw_open_read_errno w p e :
  os_stat w p = inl (Errno e) -> raw_open_read p w = (w, inl (oserror e p)).
Proof.
  unfold os_stat, raw_open_read.
  destruct (resolve w p) as [f|cs].
  - by intros [= ->].
  - destruct (tree_get cs (root w)); [done|]. by intros [= <-].
Qed.

Lemma raw_open_read_fail w p f :
  os_stat w p = inl f -> raw_open_read p w = (w, inl (path_error f p)).
Proof.
  unfold os_stat, raw_open_read.
  destruct (resolve w p) as [f'|cs].
  - by intros [= ->].
  - destruct (tree_get cs (root w)); [done|]. by intros [= <-].
Qed.

Lemma raw_open_read_dir w p es :
  os_stat w p = inr (Dir es) ->
  raw_open_read p w = (w, inl (IsADirectoryError p)).
Proof.
  unfold os_stat, raw_open_read.
  destruct (resolve w p) as [f|cs]; [done|].
  destruct (tree_get cs (root w)) as [[d|es']|]; by try done.
Qed.

Lemma raw_open_read_refused w p :
  fs_str p = false ->
  exists e, raw_open_read p w = (w, inl e) /\
            (e = UnicodeEncodeError \/ e = ValueError).
Proof.
  intros H. unfold raw_open_read, resolve.
  destruct (path_arg_refused p H) as [-> | ->]; eauto.
Qed.

Lemma raw_open_write_ok w p cs :
  resolve w p = inr cs -> is_dir_opt (tree_get cs (root w)) = false ->
  exists r, tree_put cs [] (root w) = Some r /\
            raw_open_write p w = (set_root w r, inr cs).
Proof.
  intros Hr Hnd. unfold raw_open_write.
  assert (exists r, tree_put cs [] (root w) = Some r) as [r Hp].
  { destruct (resolve_result _ _ _ Hr) as [Hd|(par & c & -> & Hd)].
    - congruence.
    - by apply tree_put_child. }
  assert (He : endswith [SEP] p = false).
  { destruct (endswith [SEP] p) eqn:He; [|done].
    pose proof (resolve_trailing_sep _ _ _ He Hr). congruence. }
  apply resolve_inr in Hr as [-> ->]. rewrite He.
  exists r. split; [done|]. rewrite Hp.
  by destruct (tree_get cs (root w)) as [[d|es]|].
Qed.

Lemma writable_inv w p :
  writable w p = true ->
  exists cs, resolve w p = inr cs /\ is_dir_opt (tree_get cs (root w)) = false.
Proof.
  unfold writable. destruct (resolve w p) as [e|cs]; [done|].
  intros H. exists cs. split; [done|]. by apply negb_true_iff in H.
Qed.

(** Creating or truncating, then storing: the file holds the data and
    nothing else changes but regular files. *)
Lemma store_after_open w p cs b :
  resolve w p = inr cs -> is_dir_opt (tree_get cs (root w)) = false ->
  exists w1 w2,
    raw_open_write p w = (w1, inr cs) /\
    file_store cs b w1 = (w2, inr tt) /\
    same_dirs w w1 /\ same_dirs w w2 /\
    tree_get cs (root w2) = Some (File b) /\
    (forall c d, c <> cs -> tree_get c (root w) = Some (File d) ->
                 file_data w1 c = d).
Proof.
  intros Hr Hnd.
  destruct (raw_open_write_ok _ _ _ Hr Hnd) as (r1 & Hp1 & Ho).
  destruct (tree_put_again _ _ b _ _ Hp1) as (r2 & Hp2).
  exists (set_root w r1), (set_root w r2).
  assert (S1 : same_dirs w (set_root w r1)) by by eapply same_dirs_put.
  assert (G1 : tree_get cs r1 = Some (File [])) by by eapply tree_get_put_same.
  split; [done|]. split.
  { unfold file_store. simpl. by rewrite Hp2. }
  split; [done|]. split.
  { eapply same_dirs_trans; [exact S1|].
    replace (set_root w r2) with (set_root (set_root w r1) r2) by done.
    eapply same_dirs_put; simpl; eauto. by rewrite G1. }
  split.
  { simpl. by eapply tree_get_put_same. }
  intros c d Hne Hc. unfold file_data. simpl.
  by rewrite (tree_put_keeps_files _ _ _ _ Hp1 Hnd c d Hne Hc).
Qed.

(** *** The checks of [shutil.copyfile] *)

Lemma os_stat_refused w p :
  fs_str p = false ->
  os_stat w p = inl Unencodable \/ os_stat w p = inl EmbeddedNull.
Proof.
  intros H. unfold os_stat, resolve.
  destruct (path_arg_refused p H) as [-> | ->]; auto.
Qed.

Lemma os_stat_accepted w p :
  fs_str p = true ->
  (exists e, os_stat w p = inl (Errno e)) \/ (exists n, os_stat w p = inr n).
Proof.
  intros H. unfold os_stat, resolve, path_arg. unfold fs_str in H.
  apply andb_true_iff in H as [-> H]. apply negb_true_iff in H as ->. simpl.
  destruct (PATH_MAX <=? fs_length p); [left; eauto|].
  destruct p; [left; eauto|].
  destruct (walk w _) as [e|cs]; [left; eauto|].
  destruct (tree_get cs (root w)); [right|left]; eauto.
Qed.

Lemma os_stat_fs_str w p n : os_stat w p = inr n -> fs_str p = true.
Proof.
  unfold os_stat. destruct (resolve w p) as [f|cs] eqn:E; [done|]. intros _.
  apply resolve_inr in E as [E _]. by apply path_arg_fs_str.
Qed.

Lemma os_stat_errno_fs_str w p e :
  os_stat w p = inl (Errno e) -> fs_str p = true.
Proof.
  intros H. destruct (fs_str p) eqn:E; [done|].
  destruct (os_stat_refused w p E); congruence.
Qed.

Lemma is_OSError_oserror e p : is_OSError (oserror e p) = true.
Proof. by destruct e. Qed.

Lemma bind_ok {A B} (c : M A) (k : A -> M B) w w' a :
  c w = (w', inr a) -> bind c k w = k a w'.
Proof. unfold bind. by intros ->. Qed.

Lemma bind_err {A B} (c : M A) (k : A -> M B) w w' e :
  c w = (w', inl e) -> bind c k w = (w', inl e).
Proof. unfold bind. by intros ->. Qed.

Lemma os_stat_call_errno w p e :
  os_stat w p = inl (Errno e) -> os_stat_call p w = (w, inl (oserror e p)).
Proof. unfold os_stat_call. by intros ->. Qed.

Lemma os_stat_call_ok w p n :
  os_stat w p = inr n -> os_stat_call p w = (w, inr n).
Proof. unfold os_stat_call. by intros ->. Qed.

Lemma os_stat_call_refused w p :
  fs_str p = false ->
  exists e, os_stat_call p w = (w, inl e) /\
            (e = UnicodeEncodeError \/ e = ValueError) /\ is_OSError e = false.
Proof.
  intros H. unfold os_stat_call.
  destruct (os_stat_refused w p H) as [-> | ->]; simpl; eauto 6.
Qed.

(** The probe of the loop over [src] and [dst]. *)
Lemma stat_probe_accepted w fn :
  fs_str fn = true ->
  except_OSError (_stat fn ;;; ret tt) (ret tt) w = (w, inr tt).
Proof.
  intros H. unfold except_OSError, _stat.
  destruct (os_stat_accepted w fn H) as [[e He]|[n Hn]].
  - rewrite (bind_err _ _ _ _ _ (os_stat_call_errno _ _ _ He)).
    by rewrite is_OSError_oserror.
  - by rewrite (bind_ok _ _ _ _ _ (os_stat_call_ok _ _ _ Hn)).
Qed.

Lemma stat_probe_refused w fn :
  fs_str fn = false ->
  exists e, except_OSError (_stat fn ;;; ret tt) (ret tt) w = (w, inl e) /\
            (e = UnicodeEncodeError \/ e = ValueError).
Proof.
  intros H. unfold except_OSError, _stat.
  destruct (os_stat_call_refused w fn H) as (e & Hc & He & Hos).
  rewrite (bind_err _ _ _ _ _ Hc), Hos. eauto.
Qed.

Lemma samefile_errno w src dst e :
  os_stat w src = inl (Errno e) -> _samefile src dst w = (w, inr false).
Proof.
  intros H. unfold _samefile, except_OSError, os_path_samefile.
  rewrite (bind_err _ _ _ _ _ (os_stat_call_errno _ _ _ H)).
  by rewrite is_OSError_oserror.
Qed.

Lemma samefile_accepted w src dst :
  fs_str src = true -> fs_str dst = true ->
  _samefile src dst w = (w, inr (same_file w src dst)).
Proof.
  intros Hs Hd. unfold same_file.
  destruct (os_stat_accepted w src Hs) as [[e He]|[n Hn]].
  { rewrite (samefile_errno _ _ _ _ He). by rewrite He. }
  unfold _samefile, except_OSError, os_path_samefile.
  rewrite (bind_ok _ _ _ _ _ (os_stat_call_ok _ _ _ Hn)), Hn.
  destruct (os_stat_accepted w dst Hd) as [[e He]|[m Hm]].
  - rewrite (bind_err _ _ _ _ _ (os_stat_call_errno _ _ _ He)), He.
    by rewrite is_OSError_oserror.
  - rewrite (bind_ok _ _ _ _ _ (os_stat_call_ok _ _ _ Hm)), Hm.
    unfold gets. by destruct (resolve w src), (resolve w dst).
Qed.

(** On paths the interpreter accepts, [shutil.copyfile] refuses to copy a
    file onto itself and goes on to the copy otherwise. *)
Lemma shutil_copyfile_accepted w src dst :
  fs_str src = true -> fs_str dst = true ->
  shutil_copyfile src dst w
  = if same_file w src dst then (w, inl SameFileError)
    else copyfile_data src dst w.
Proof.
  intros Hs Hd. unfold shutil_copyfile.
  rewrite (bind_ok _ _ _ _ _ (samefile_accepted _ _ _ Hs Hd)).
  destruct (same_file w src dst); [done|].
  erewrite bind_ok; [done|]. cbn [for_each].
  rewrite (bind_ok _ _ _ _ _ (stat_probe_accepted _ _ Hs)).
  by rewrite (bind_ok _ _ _ _ _ (stat_probe_accepted _ _ Hd)).
Qed.

(** A path the interpreter refuses makes [shutil.copyfile] raise before
    any file is opened: the source is looked at first. *)
Lemma shutil_copyfile_refused w src dst :
  fs_str src = false \/ fs_str dst = false ->
  exists e, shutil_copyfile src dst w = (w, inl e) /\
            (e = UnicodeEncodeError \/ e = ValueError).
Proof.
  intros H. unfold shutil_copyfile.
  destruct (fs_str src) eqn:Hs.
  - destruct H as [H|Hd]; [done|].
    destruct (os_stat_accepted w src Hs) as [[e He]|[n Hn]].
    + rewrite (bind_ok _ _ _ _ _ (samefile_errno _ _ dst _ He)).
      destruct (stat_probe_refused w dst Hd) as (e' & Hp & He').
      exists e'. split; [|done].
      erewrite bind_err; [done|]. cbn [for_each].
      rewrite (bind_ok _ _ _ _ _ (stat_probe_accepted _ _ Hs)).
      by rewrite (bind_err _ _ _ _ _ Hp).
    + destruct (os_stat_call_refused w dst Hd) as (e' & Hc & He' & Hos).
      exists e'. split; [|done].
      erewrite bind_err; [done|].
      unfold _samefile, except_OSError, os_path_samefile.
      rewrite (bind_ok _ _ _ _ _ (os_stat_call_ok _ _ _ Hn)).
      by rewrite (bind_err _ _ _ _ _ Hc), Hos.
  - destruct (os_stat_call_refused w src Hs) as (e' & Hc & He' & Hos).
    exists e'. split; [|done].
    erewrite bind_err; [done|].
    unfold _samefile, except_OSError, os_path_samefile.
    by rewrite (bind_err _ _ _ _ _ Hc), Hos.
Qed.

Lemma same_file_resolve w a b :
  same_file w a b = true -> resolve w a = resolve w b.
Proof.
  unfold same_file.
  destruct (os_stat w a), (os_stat w b); try done.
  destruct (resolve w a), (resolve w b); try done.
  by intros ->%bool_decide_eq_true.
Qed.

Lemma same_file_missing w a b e :
  os_stat w a = inl e -> same_file w a b = false.
Proof. unfold same_file. by intros ->. Qed.

Lemma shutil_copyfile_ok w src dst b :
  os_stat w src = inr (File b) ->
  writable w dst = true ->
  resolve w src <> resolve w dst ->
  exists w', shutil_copyfile src dst w = (w', inr tt) /\
             os_stat w' dst = inr (File b) /\ same_dirs w w'.
Proof.
  intros Hs Hw Hne.
  pose proof (os_stat_fs_str _ _ _ Hs) as Fs.
  apply os_stat_file in Hs as (cs & Hrs & Hgs).
  apply writable_inv in Hw as (cd & Hrd & Hnd).
  assert (Fd : fs_str dst = true).
  { apply resolve_inr in Hrd as [? _]. by apply path_arg_fs_str. }
  assert (cs <> cd) by congruence.
  destruct (store_after_open w dst cd b Hrd Hnd)
    as (w1 & w2 & Ho & Hst & S1 & S2 & Hg & Hkeep).
  exists w2. split; [|split; [|done]].
  - rewrite (shutil_copyfile_accepted _ _ _ Fs Fd).
    destruct (same_file w src dst) eqn:Esf.
    { by apply same_file_resolve in Esf. }
    unfold copyfile_data, bind, gets.
    rewrite (raw_open_read_file _ _ _ _ Hrs Hgs), Ho.
    by rewrite (Hkeep cs b).
  - apply os_stat_file. exists cd. split; [|done].
    by eapply same_dirs_resolve.
Qed.

(** A source that [os.stat] does not find makes the copy fail as the
    opening of the source does, whatever the target is, as long as the
    interpreter accepts its path. *)
Lemma shutil_copyfile_errno w src dst e :
  os_stat w src = inl (Errno e) -> fs_str dst = true ->
  shutil_copyfile src dst w = (w, inl (oserror e src)).
Proof.
  intros Hs Fd.
  rewrite (shutil_copyfile_accepted _ _ _ (os_stat_errno_fs_str _ _ _ Hs) Fd).
  rewrite (same_file_missing _ _ _ _ Hs).
  unfold copyfile_data, bind. by rewrite (raw_open_read_errno _ _ _ Hs).
Qed.

(** ** Universal newlines *)

Lemma translate_newlines_no_cr s : forall p, no_cr (translate_newlines p s).
Proof.
  induction s as [|c s IH]; intros p; simpl; [constructor|].
  destruct (c =? CR) eqn:E1; [constructor; [done|apply IH]|].
  destruct (c =? LF) eqn:E2.
  - destruct p; [apply IH|constructor; [done|apply IH]].
  - constructor; [|apply IH]. by apply N.eqb_neq in E1.
Qed.

Lemma universal_newlines_id s : no_cr s -> universal_newlines s = s.
Proof.
  unfold universal_newlines. induction 1 as [|c s Hc _ IH]; simpl; [done|].
  apply N.eqb_neq in Hc. rewrite Hc.
  destruct (c =? LF) eqn:E; [apply N.eqb_eq in E; subst|]; by rewrite IH.
Qed.

Lemma universal_newlines_idem s :
  universal_newlines (universal_newlines s) = universal_newlines s.
Proof. apply universal_newlines_id, translate_newlines_no_cr. Qed.

(** ** [split] and [join] *)

Lemma str_join_cons sep x y l :
  str_join sep (x :: y :: l) = x ++ sep ++ str_join sep (y :: l).
Proof. done. Qed.

Lemma str_join_split s sep : str_join [sep] (str_split s sep) = s.
Proof.
  induction s as [|c s IH]; simpl; [done|].
  destruct (str_split s sep) as [|x l] eqn:El;
    [by apply str_split_nonempty in El|].
  destruct (c =? sep) eqn:E.
  - apply N.eqb_eq in E. subst c.
    rewrite str_join_cons.
    change (sep :: str_join [sep] (x :: l) = sep :: s). by rewrite IH.
  - destruct l as [|y l].
    + simpl in *. by rewrite IH.
    + rewrite str_join_cons in *.
      change (c :: (x ++ [sep] ++ str_join [sep] (y :: l)) = c :: s).
      by rewrite IH.
Qed.

Lemma str_split_pieces (P : codepoint -> Prop) s sep :
  Forall P s -> Forall (Forall P) (str_split s sep).
Proof.
  induction 1 as [|c s Hc _ IH]; simpl; [by repeat constructor|].
  destruct (c =? sep).
  - by constructor.
  - destruct (str_split s sep) as [|x l]; [by repeat constructor|].
    inversion IH; subst. constructor; [by constructor|done].
Qed.

Lemma str_split_no_sep s sep :
  Forall (Forall (fun c => c <> sep)) (str_split s sep).
Proof.
  induction s as [|c s IH]; simpl; [by repeat constructor|].
  destruct (c =? sep) eqn:E.
  - by constructor.
  - apply N.eqb_neq in E.
    destruct (str_split s sep) as [|x l]; [by repeat constructor|].
    inversion IH; subst. constructor; [by constructor|done].
Qed.

(** ** [read_file] *)

Lemma lookup_codec_arg l name cd :
  lookup_codec l name = Some cd -> str_arg name = None.
Proof. unfold lookup_codec. by destruct (str_arg name). Qed.

(** What [read_file] does, case by case, in the order of the checks. *)
Lemma read_file_eq w filepath encoding is_binary :
  read_file filepath encoding is_binary w
  = (w, match str_arg encoding with
        | Some e => inl e
        | None =>
            if is_binary then inl ValueError
            else
              match os_stat w filepath with
              | inl f => inl (path_error f filepath)
              | inr (Dir _) => inl (IsADirectoryError filepath)
              | inr (File b) =>
                  match lookup_codec (lib w) encoding with
                  | None => inl LookupError
                  | Some cd =>
                      match decode cd b with
                      | Some t => inr (Text (universal_newlines t))
                      | None => inl UnicodeDecodeError
                      end
                  end
              end
        end).
Proof.
  unfold read_file, builtin_open. cbn [mbind option_bind].
  destruct (str_arg encoding) as [e|]; [done|].
  destruct is_binary; [done|]. cbn [andb].
  unfold bind, ret, raw_open_read, os_stat.
  destruct (resolve w filepath) as [f|cs]; [done|].
  destruct (tree_get cs (root w)) as [[b|es]|] eqn:Hg; [|done|done].
  change (default (py "utf-8") (Some encoding)) with encoding.
  destruct (lookup_codec (lib w) encoding) as [cd|]; [|done].
  unfold file_read, file_data. cbn [fo_path fo_codec]. rewrite Hg.
  by destruct (decode cd b).
Qed.

Lemma read_file_text w filepath encoding cd b :
  os_stat w filepath = inr (File b) ->
  lookup_codec (lib w) encoding = Some cd ->
  read_file filepath encoding false w =
  (w, match decode cd b with
      | Some t => inr (Text (universal_newlines t))
      | None => inl UnicodeDecodeError
      end).
Proof.
  intros Hs Hc. by rewrite read_file_eq, (lookup_codec_arg _ _ _ Hc), Hs, Hc.
Qed.

(** ** The JSON reader of the concrete environment *)

Lemma minijson_lex_newlines s :
  (forall st, MiniJson.lex st (translate_newlines false s) = MiniJson.lex st s) /\
  MiniJson.lex MiniJson.Outside (translate_newlines true s)
  = MiniJson.lex MiniJson.Outside s.
Proof.
  induction s as [|c s [IHf IHt]]; [done|].
  cbn [translate_newlines].
  destruct (c =? CR) eqn:E1.
  { apply N.eqb_eq in E1. subst c. split.
    - intros [| | |]; cbn; by rewrite ?IHt.
    - cbn. by rewrite IHt. }
  destruct (c =? LF) eqn:E2.
  { apply N.eqb_eq in E2. subst c. split.
    - intros [| | |]; cbn; by rewrite ?IHf.
    - cbn. by rewrite IHf. }
  assert (Hstep : forall st,
    MiniJson.lex st (c :: translate_newlines false s) = MiniJson.lex st (c :: s)).
  { intros st. destruct st; cbn [MiniJson.lex]; repeat case_match;
      by rewrite ?IHf. }
  split; [exact Hstep|apply Hstep].
Qed.

Lemma minijson_loads_newlines s :
  MiniJson.loads (universal_newlines s) = MiniJson.loads s.
Proof.
  unfold MiniJson.loads, universal_newlines.
  by rewrite (proj1 (minijson_lex_newlines s)).
Qed.

Lemma std_json_loads_newlines s :
  std_json_loads (universal_newlines s) = std_json_loads s.
Proof. unfold std_json_loads. by rewrite minijson_loads_newlines. Qed.

(** ** [os.path.basename] and [os.path.join] *)

Lemma tail_from_no_sep p : forall acc, no_sep acc -> no_sep (tail_from acc p).
Proof.
  unfold no_sep. induction p as [|c p IH]; intros acc Hacc; simpl.
  - by apply Forall_rev.
  - destruct (is_sep c) eqn:E; apply IH; [constructor|by constructor].
Qed.

Lemma basename_no_sep p : no_sep (os_path_basename p).
Proof. apply tail_from_no_sep. constructor. Qed.

Lemma tail_from_snoc_sep p : forall acc, tail_from acc (p ++ [SEP]) = [].
Proof. induction p as [|c p IH]; intros acc; simpl; [done|]. by destruct (is_sep c). Qed.

Lemma basename_nonempty dest :
  os_path_basename dest <> [] -> dest <> [] /\ endswith [SEP] dest = false.
Proof.
  intros H. split.
  - by intros ->.
  - destruct (endswith [SEP] dest) eqn:E; [|done].
    apply endswith_sep_inv in E as [p ->].
    unfold os_path_basename in H. by rewrite tail_from_snoc_sep in H.
Qed.

Lemma startswith_sep_no_sep b : no_sep b -> startswith [SEP] b = false.
Proof.
  intros H. unfold startswith. apply str_eqb_neq.
  destruct H as [|c b Hc _]; [done|]. simpl. intros [= ->]. done.
Qed.

Lemma os_path_join_basename dest src :
  os_path_basename dest <> [] ->
  os_path_join dest (os_path_basename src) = dest ++ SEP :: os_path_basename src.
Proof.
  intros H. apply basename_nonempty in H as [Hne Hend]. unfold os_path_join.
  rewrite (startswith_sep_no_sep _ (basename_no_sep src)), Hend.
  by rewrite bool_decide_eq_false_2.
Qed.

(** ** [convert_file_charset] *)

(** [open] in text mode, in the order of its steps. *)
Lemma builtin_open_text w path writing encoding :
  builtin_open path false writing (Some encoding) w
  = match str_arg encoding with
    | Some e => (w, inl e)
    | None =>
        match (if writing then raw_open_write path else raw_open_read path) w with
        | (w', inl e) => (w', inl e)
        | (w', inr cs) =>
            match lookup_codec (lib w') encoding with
            | Some cd => (w', inr (FileObj cs (Some cd)))
            | None => (w', inl LookupError)
            end
        end
    end.
Proof.
  unfold builtin_open. cbn [mbind option_bind andb].
  destruct (str_arg encoding) as [e|]; [done|].
  unfold bind, ret.
  destruct ((if writing then raw_open_write path else raw_open_read path) w)
    as [w' [e|cs]]; [done|].
  change (default (py "utf-8") (Some encoding)) with encoding.
  by destruct (lookup_codec (lib w') encoding).
Qed.

Lemma builtin_open_read_text w path encoding cd cs b :
  resolve w path = inr cs -> tree_get cs (root w) = Some (File b) ->
  lookup_codec (lib w) encoding = Some cd ->
  builtin_open path false false (Some encoding) w
  = (w, inr (FileObj cs (Some cd))).
Proof.
  intros Hr Hg Hc.
  by rewrite builtin_open_text, (lookup_codec_arg _ _ _ Hc),
    (raw_open_read_file _ _ _ _ Hr Hg), Hc.
Qed.

Lemma builtin_open_write_text w path encoding cd w1 cs :
  raw_open_write path w = (w1, inr cs) ->
  lookup_codec (lib w1) encoding = Some cd ->
  builtin_open path false true (Some encoding) w
  = (w1, inr (FileObj cs (Some cd))).
Proof.
  intros Ho Hc.
  by rewrite builtin_open_text, (lookup_codec_arg _ _ _ Hc), Ho, Hc.
Qed.

Lemma convert_file_charset_ok w src dst e1 e2 c1 c2 b t b' :
  os_stat w src = inr (File b) ->
  writable w dst = true ->
  resolve w src <> resolve w dst ->
  lookup_codec (lib w) e1 = Some c1 ->
  lookup_codec (lib w) e2 = Some c2 ->
  decode c1 b = Some t ->
  encode c2 (universal_newlines t) = Some b' ->
  exists w', convert_file_charset src dst e1 e2 w = (w', inr tt) /\
             os_stat w' dst = inr (File b') /\ same_dirs w w'.
Proof.
  intros Hs Hw Hne H1 H2 Hd He.
  apply os_stat_file in Hs as (cs & Hrs & Hgs).
  apply writable_inv in Hw as (cd & Hrd & Hnd).
  assert (cs <> cd) by congruence.
  destruct (store_after_open w dst cd b' Hrd Hnd)
    as (w1 & w2 & Ho & Hst & S1 & S2 & Hg & Hkeep).
  exists w2. split; [|split; [|done]].
  - unfold convert_file_charset.
    rewrite (bind_ok _ _ _ _ _ (builtin_open_read_text _ _ _ _ _ _ Hrs Hgs H1)).
    assert (H2' : lookup_codec (lib w1) e2 = Some c2).
    { destruct S1 as (_ & -> & _). done. }
    rewrite (bind_ok _ _ _ _ _ (builtin_open_write_text _ _ _ _ _ _ Ho H2')).
    unfold bind, file_read, file_write. cbn [fo_path fo_codec].
    rewrite (Hkeep cs b) by done. rewrite Hd. by rewrite He.
  - apply os_stat_file. exists cd. split; [|done].
    by eapply same_dirs_resolve.
Qed.

(** ** List objects and [__pop_none_file_paths__] *)

Lemma set_heap_set_heap w h1 h2 : set_heap (set_heap w h1) h2 = set_heap w h2.
Proof. done. Qed.

Lemma indices_where_not_app keep l1 : forall i l2,
  indices_where_not keep i (l1 ++ l2)
  = indices_where_not keep i l1
    ++ indices_where_not keep (i + length l1)%nat l2.
Proof.
  induction l1 as [|x l1 IH]; intros i l2; simpl.
  - by rewrite Nat.add_0_r.
  - rewrite IH. replace (S i + length l1)%nat with (i + S (length l1))%nat by lia.
    by destruct (keep x).
Qed.

(** Popping the indices of the rejected items, last one first, leaves the
    kept items and returns the rejected ones in reverse. *)
Lemma pop_rejected keep l items : forall suffix w,
  heap w !! l = Some (items ++ suffix) ->
  map_m (list_pop l) (rev (indices_where_not keep 0 items)) w
  = (set_heap w (<[l := List.filter keep items ++ suffix]> (heap w)),
     inr (rev (List.filter (fun x => negb (keep x)) items))).
Proof.
  induction items as [|x items IH] using rev_ind; intros suffix w Hl.
  - simpl in *. unfold ret. by rewrite insert_id, set_heap_id.
  - rewrite indices_where_not_app, !List.filter_app. simpl.
    rewrite <- app_assoc in Hl. simpl in Hl.
    destruct (keep x); simpl.
    + rewrite !app_nil_r, <- app_assoc. by apply IH.
    + rewrite rev_app_distr, app_nil_r. simpl.
      unfold bind at 1. unfold list_pop at 1. unfold bind at 1.
      unfold list_get at 1. rewrite Hl.
      rewrite lookup_app_r by done. rewrite Nat.sub_diag. simpl.
      set (w1 := set_heap w _).
      assert (H1 : heap w1 !! l = Some (items ++ suffix)).
      { subst w1. simpl. rewrite lookup_insert_eq. f_equal.
        rewrite delete_middle. done. }
      unfold bind. rewrite (IH _ _ H1). subst w1. simpl.
      rewrite set_heap_set_heap, insert_insert_eq.
      by rewrite rev_app_distr.
Qed.

Lemma pop_none_file_paths_spec w l items :
  heap w !! l = Some items ->
  __pop_none_file_paths__ l w
  = (set_heap w (<[l := List.filter (os_path_isfile w) items]> (heap w)),
     inr (List.filter (fun p => negb (os_path_isfile w p)) items)).
Proof.
  intros Hl. unfold __pop_none_file_paths__, bind, gets, list_get, ret.
  rewrite Hl.
  rewrite (pop_rejected (os_path_isfile w) l items [] w)
    by by rewrite app_nil_r.
  by rewrite app_nil_r, rev_involutive.
Qed.

(** What the lines after the validation do. *)
Lemma copy_files_body_run w src_list items dest_dir ignore_none_file :
  heap w !! src_list = Some items ->
  copy_files_body src_list dest_dir ignore_none_file w
  = let kept := List.filter (os_path_isfile w) items in
    let missing := List.filter (fun p => negb (os_path_isfile w p)) items in
    let w1 := set_heap w (<[fresh (dom (heap w)) := kept]> (heap w)) in
    match missing with
    | _ :: _ =>
        if negb ignore_none_file
        then (w1, inl (FileNotFoundError (str_join (py ", ") missing)))
        else for_each kept
               (fun src => shutil_copyfile src
                             (os_path_join dest_dir (os_path_basename src))) w1
    | [] =>
        for_each kept
          (fun src => shutil_copyfile src
                        (os_path_join dest_dir (os_path_basename src))) w1
    end.
Proof.
  intros Hl. unfold copy_files_body, list_copy.
  unfold bind at 1. unfold bind at 1. unfold list_get at 1. rewrite Hl.
  set (l' := fresh (dom (heap w))).
  set (w0 := set_heap w (<[l' := items]> (heap w))).
  unfold bind at 1.
  rewrite (pop_none_file_paths_spec w0 l' items)
    by (subst w0; simpl; apply lookup_insert_eq).
  subst w0. rewrite set_heap_set_heap. simpl heap. rewrite insert_insert_eq.
  change (os_path_isfile (set_heap w (<[l' := items]> (heap w))))
    with (os_path_isfile w).
  cbv zeta.
  set (w1 := set_heap w _).
  assert (Hget : list_get l' w1
                 = (w1, inr (List.filter (os_path_isfile w) items))).
  { unfold list_get. subst w1. simpl. by rewrite lookup_insert_eq. }
  destruct (List.filter (fun p => negb (os_path_isfile w p)) items) as [|m ms].
  - unfold bind, ret. by rewrite Hget.
  - destruct ignore_none_file; simpl.
    + unfold bind, ret. by rewrite Hget.
    + done.
Qed.

Lemma keeps_heap_bind {A B} (c : M A) (k : A -> M B) :
  keeps_heap c -> (forall a, keeps_heap (k a)) -> keeps_heap (bind c k).
Proof.
  intros Hc Hk w. unfold bind. specialize (Hc w).
  destruct (c w) as [w' [e|a]]; simpl in *; [done|].
  by rewrite Hk.
Qed.

Lemma keeps_heap_raw_open_read p : keeps_heap (raw_open_read p).
Proof. intros w. unfold raw_open_read. by repeat case_match. Qed.

Lemma keeps_heap_raw_open_write p : keeps_heap (raw_open_write p).
Proof. intros w. unfold raw_open_write. by repeat case_match. Qed.

Lemma keeps_heap_file_store cs b : keeps_heap (file_store cs b).
Proof. intros w. unfold file_store. by case_match. Qed.

Lemma keeps_heap_os_stat_call p : keeps_heap (os_stat_call p).
Proof. intros w. unfold os_stat_call. by case_match. Qed.

Lemma keeps_heap_except {A} (c h : M A) :
  keeps_heap c -> keeps_heap h -> keeps_heap (except_OSError c h).
Proof.
  intros Hc Hh w. unfold except_OSError. specialize (Hc w).
  destruct (c w) as [w' [e|a]]; simpl in *; [|done].
  destruct (is_OSError e); [by rewrite Hh|done].
Qed.

Lemma keeps_heap_samefile src dst : keeps_heap (_samefile src dst).
Proof.
  unfold _samefile, os_path_samefile. apply keeps_heap_except; [|done].
  apply keeps_heap_bind; [apply keeps_heap_os_stat_call|]. intros _.
  apply keeps_heap_bind; [apply keeps_heap_os_stat_call|]. by intros _.
Qed.

Lemma keeps_heap_stat_probe fn :
  keeps_heap (except_OSError (_stat fn ;;; ret tt) (ret tt)).
Proof.
  apply keeps_heap_except; [|done].
  apply keeps_heap_bind; [apply keeps_heap_os_stat_call|]. by intros _.
Qed.

Lemma shutil_copyfile_heap src dst : keeps_heap (shutil_copyfile src dst).
Proof.
  unfold shutil_copyfile.
  apply keeps_heap_bind; [apply keeps_heap_samefile|]. intros [|]; [done|].
  apply keeps_heap_bind.
  { cbn [for_each].
    apply keeps_heap_bind; [apply keeps_heap_stat_probe|]. intros _.
    apply keeps_heap_bind; [apply keeps_heap_stat_probe|]. by intros _. }
  intros _.
  apply keeps_heap_bind; [apply keeps_heap_raw_open_read|]. intros fsrc.
  apply keeps_heap_bind.
  { intros w. pose proof (keeps_heap_raw_open_write dst w) as H.
    destruct (raw_open_write dst w) as [w' [e|a]]; [|done].
    destruct e; try done. by case_match. }
  intros fdst. apply keeps_heap_bind; [done|]. intros data.
  apply keeps_heap_file_store.
Qed.

Lemma for_each_heap {A} (body : A -> M unit) l :
  (forall x w, heap (fst (body x w)) = heap w) ->
  forall w, heap (fst (for_each l body w)) = heap w.
Proof.
  intros Hb. induction l as [|x l IH]; intros w; simpl; [done|].
  unfold bind. specialize (Hb x w).
  destruct (body x w) as [w' [e|[]]]; simpl in *; [done|].
  by rewrite IH.
Qed.

(** ** [fnmatch] on a pattern [a*b] *)

Lemma str_eqb_cons x xs y ys :
  str_eqb (x :: xs) (y :: ys) = (x =? y) && str_eqb xs ys.
Proof.
  apply eq_true_iff_eq. rewrite andb_true_iff, !str_eqb_true, N.eqb_eq.
  split; [by intros [= -> ->]|by intros [-> ->]].
Qed.

Lemma str_eqb_length a b : length a <> length b -> str_eqb a b = false.
Proof. intros H. apply str_eqb_neq. by intros ->. Qed.

Lemma gmatch_lits b : forall s, gmatch (map GLit b) s = str_eqb s b.
Proof.
  induction b as [|c b IH]; intros s.
  { simpl. apply eq_true_iff_eq. by rewrite bool_decide_eq_true, str_eqb_true. }
  destruct s as [|c' s]; [reflexivity|].
  cbn [map gmatch]. by rewrite IH, str_eqb_cons.
Qed.

Lemma gmatch_lits_app a r : forall n,
  gmatch (map GLit a ++ r) n = startswith a n && gmatch r (drop (length a) n).
Proof.
  induction a as [|c a IH]; intros n; [done|].
  destruct n as [|c' n]; [done|].
  cbn [map app gmatch]. rewrite IH. unfold startswith. simpl.
  by rewrite str_eqb_cons, andb_assoc.
Qed.

Lemma gmatch_star_lits b s : gmatch (GStar :: map GLit b) s = endswith b s.
Proof.
  cbn [gmatch]. induction s as [|c s IH].
  - rewrite gmatch_lits. unfold endswith. simpl. by rewrite orb_false_r.
  - rewrite IH, gmatch_lits. unfold endswith.
    destruct (decide (length b <= length s)%nat) as [Hle|Hgt].
    + rewrite (str_eqb_length (c :: s) b) by (simpl; lia).
      replace (length (c :: s) - length b)%nat
        with (S (length s - length b)) by (simpl; lia).
      done.
    + replace (length (c :: s) - length b)%nat with 0%nat by (simpl; lia).
      replace (length s - length b)%nat with 0%nat by lia.
      rewrite !drop_0, (str_eqb_length s b) by lia. by rewrite orb_false_r.
Qed.

Lemma is_magic_false c :
  is_magic c = false ->
  (c =? STAR) = false /\ (c =? QMARK) = false /\ (c =? LBRACK) = false.
Proof. unfold is_magic. rewrite !orb_false_iff. tauto. Qed.

Lemma fnmatch_translate_lits a : forall fuel rest,
  no_magic a ->
  fnmatch_translate (length a + fuel) (a ++ rest)
  = map GLit a ++ fnmatch_translate fuel rest.
Proof.
  induction a as [|c a IH]; intros fuel rest Ha; [done|].
  inversion Ha as [|? ? Hc Ha']; subst.
  destruct (is_magic_false _ Hc) as (E1 & E2 & E3).
  change (length (c :: a) + fuel)%nat with (S (length a + fuel)).
  cbn [app fnmatch_translate]. rewrite E1, E2, E3.
  cbn [map app]. by rewrite IH.
Qed.

Lemma fnmatch_translate_affixes a b :
  no_magic a -> no_magic b ->
  fnmatch_translate (length (a ++ STAR :: b)) (a ++ STAR :: b)
  = map GLit a ++ GStar :: map GLit b.
Proof.
  intros Ha Hb. rewrite length_app. rewrite fnmatch_translate_lits by done.
  simpl. f_equal. f_equal.
  pose proof (fnmatch_translate_lits b 0 [] Hb) as H.
  rewrite Nat.add_0_r, app_nil_r in H. rewrite H.
  apply app_nil_r.
Qed.

Lemma fnmatch_affixes a b n :
  no_magic a -> no_magic b ->
  gmatch (fnmatch_translate (length (a ++ STAR :: b)) (a ++ STAR :: b)) n
  = affix_match a b n.
Proof.
  intros Ha Hb. rewrite fnmatch_translate_affixes by done.
  by rewrite gmatch_lits_app, gmatch_star_lits.
Qed.

Lemma affix_match_spec a b n :
  affix_match a b n = true <-> exists mid, n = a ++ mid ++ b.
Proof.
  unfold affix_match, startswith, endswith.
  rewrite andb_true_iff, !str_eqb_true. split.
  - intros [H1 H2]. exists (take (length (drop (length a) n) - length b)
                                   (drop (length a) n)).
    pose proof (take_drop (length a) n) as E1. rewrite H1 in E1.
    pose proof (take_drop (length (drop (length a) n) - length b)
                  (drop (length a) n)) as E2.
    rewrite H2 in E2. by rewrite E2, E1.
  - intros [mid ->]. split.
    + by rewrite take_app_length.
    + rewrite drop_app_length, length_app.
      replace (length mid + length b - length b)%nat with (length mid) by lia.
      by rewrite drop_app_length.
Qed.

(** ** [os.path.split] on the pattern of [get_file_list] *)

Lemma tail_from_plain t : forall acc, no_sep t -> tail_from acc t = rev acc ++ t.
Proof.
  induction t as [|c t IH]; intros acc Ht; simpl.
  - by rewrite app_nil_r.
  - inversion Ht as [|? ? Hc Ht']; subst. rewrite Hc, IH by done.
    simpl. by rewrite <- app_assoc.
Qed.

Lemma tail_from_after_sep d t : forall acc,
  no_sep t -> tail_from acc (d ++ SEP :: t) = t.
Proof.
  induction d as [|c d IH]; intros acc Ht; simpl.
  - by rewrite tail_from_plain.
  - destruct (is_sep c); by apply IH.
Qed.

Lemma os_path_split_under d t :
  no_sep t -> os_path_split (d ++ SEP :: t) = (listed_dir d, t).
Proof.
  intros Ht. unfold listed_dir, os_path_split.
  rewrite (tail_from_after_sep d t) by done.
  rewrite (tail_from_after_sep d []) by constructor.
  simpl fst. f_equal. rewrite Nat.sub_0_r, firstn_all.
  replace (length (d ++ SEP :: t) - length t)%nat with (length (d ++ [SEP])).
  - replace (d ++ SEP :: t) with ((d ++ [SEP]) ++ t) by by rewrite <- app_assoc.
    by rewrite take_app_length.
  - rewrite !length_app. simpl. lia.
Qed.

Lemma lstrip_sep_Forall (P : codepoint -> Prop) l :
  Forall P l -> Forall P (lstrip_sep l).
Proof.
  induction 1 as [|c l Hc Hl IH]; simpl; [constructor|].
  destruct (is_sep c); [done|by constructor].
Qed.

Lemma lstrip_sep_nil l : lstrip_sep l = [] -> forallb is_sep l = true.
Proof.
  induction l as [|c l IH]; simpl; [done|].
  destruct (is_sep c); [done|discriminate].
Qed.

Lemma forallb_rev {A} (f : A -> bool) l : forallb f (rev l) = forallb f l.
Proof.
  apply eq_true_iff_eq. rewrite !forallb_forall.
  split; intros H x Hx; apply H; by apply in_rev in Hx || apply in_rev.
Qed.

Lemma listed_dir_cases d :
  listed_dir d = d ++ [SEP] \/
  (listed_dir d = rstrip_sep (d ++ [SEP]) /\ forallb is_sep (d ++ [SEP]) = false).
Proof.
  unfold listed_dir, os_path_split.
  rewrite (tail_from_snoc_sep d []). simpl fst.
  rewrite Nat.sub_0_r, firstn_all.
  destruct (d ++ [SEP]) eqn:E; [by destruct d|]. rewrite <- E.
  destruct (forallb is_sep (d ++ [SEP])); auto.
Qed.

Lemma listed_dir_nonempty d : listed_dir d <> [].
Proof.
  destruct (listed_dir_cases d) as [->|[-> Hf]]; [by destruct d|].
  unfold rstrip_sep. intros H.
  apply (f_equal (@rev _)) in H. rewrite rev_involutive in H. simpl in H.
  apply lstrip_sep_nil in H. rewrite forallb_rev in H. congruence.
Qed.

Lemma listed_dir_no_magic d : no_magic d -> no_magic (listed_dir d).
Proof.
  intros Hd.
  assert (H : no_magic (d ++ [SEP])).
  { apply Forall_app. split; [done|]. by repeat constructor. }
  destruct (listed_dir_cases d) as [->|[-> _]]; [done|].
  unfold rstrip_sep. apply Forall_rev, lstrip_sep_Forall, Forall_rev, H.
Qed.

Lemma listed_dir_plain d :
  d <> [] -> endswith [SEP] d = false -> listed_dir d = d.
Proof.
  intros Hne Hend.
  destruct d as [|c d _] using rev_ind; [done|].
  assert (Hc : is_sep c = false).
  { destruct (is_sep c) eqn:E; [|done]. unfold is_sep in E.
    apply N.eqb_eq in E. subst c. unfold endswith in Hend.
    rewrite length_app in Hend. simpl in Hend.
    replace (length d + 1 - 1)%nat with (length d) in Hend by lia.
    rewrite drop_app_length in Hend. by rewrite str_eqb_refl in Hend. }
  destruct (listed_dir_cases (d ++ [c])) as [H|[-> _]].
  - exfalso. unfold listed_dir, os_path_split in H.
    rewrite (tail_from_snoc_sep (d ++ [c]) []) in H. simpl fst in H.
    rewrite Nat.sub_0_r, firstn_all in H.
    destruct ((d ++ [c]) ++ [SEP]) eqn:E; [by destruct d|]. rewrite <- E in H.
    assert (Hf : forallb is_sep ((d ++ [c]) ++ [SEP]) = false).
    { rewrite !forallb_app. simpl. rewrite Hc. by rewrite andb_false_r. }
    rewrite Hf in H. unfold rstrip_sep in H.
    rewrite !rev_app_distr in H. simpl in H. rewrite Hc in H. simpl in H.
    rewrite rev_involutive in H.
    apply (f_equal (@length _)) in H. rewrite !length_app in H. simpl in H. lia.
  - unfold rstrip_sep. rewrite !rev_app_distr. simpl. rewrite Hc. simpl.
    by rewrite rev_involutive.
Qed.

Lemma has_magic_false s : no_magic s -> has_magic s = false.
Proof.
  intros H. unfold has_magic. apply not_true_is_false. intros E.
  apply existsb_exists in E as (c & Hin & Hc).
  unfold no_magic in H. rewrite Forall_forall in H.
  apply list_elem_of_In in Hin. specialize (H c Hin).
  unfold is_magic in H. congruence.
Qed.

Lemma has_magic_star a b : has_magic (a ++ STAR :: b) = true.
Proof.
  unfold has_magic. apply existsb_exists. exists STAR. split; [|done].
  apply in_or_app. right. by left.
Qed.

Lemma filter_all {A} (f : A -> bool) l :
  (forall x, f x = true) -> List.filter f l = l.
Proof.
  intros H. induction l as [|x l IH]; simpl; [done|]. by rewrite H, IH.
Qed.

Lemma filter_filter {A} (f g : A -> bool) l :
  List.filter g (List.filter f l) = List.filter (fun x => f x && g x) l.
Proof.
  induction l as [|x l IH]; simpl; [done|].
  destruct (f x); simpl; [|done]. destruct (g x); by rewrite IH.
Qed.

Lemma ishidden_pattern a b : _ishidden (a ++ STAR :: b) = _ishidden a.
Proof. by destruct a. Qed.

(** ** [glob] on the pattern of [get_file_list] *)

Lemma match_nonempty {A B} (l : list A) (x y : B) :
  l <> [] -> match l with [] => x | _ :: _ => y end = y.
Proof. by destruct l. Qed.

Lemma glob_glob_affixes w d a b :
  no_magic d -> no_magic a -> no_magic b -> no_sep a -> no_sep b ->
  glob_glob w (d ++ [SEP] ++ a ++ [STAR] ++ b)
  = match os_stat w (listed_dir d) with
    | inl Unencodable => inl UnicodeEncodeError
    | inl EmbeddedNull => inl ValueError
    | _ =>
        inr match os_scandir w (listed_dir d) with
            | Some es =>
                map (os_path_join (listed_dir d))
                  (List.filter
                     (fun n => (_ishidden a || negb (_ishidden n))
                               && affix_match a b n)
                     (map fst es))
            | None => []
            end
    end.
Proof.
  intros Hd Ha Hb Sa Sb.
  change (d ++ [SEP] ++ a ++ [STAR] ++ b) with (d ++ SEP :: (a ++ STAR :: b)).
  assert (St : no_sep (a ++ STAR :: b)).
  { apply Forall_app. split; [done|]. by constructor. }
  unfold glob_glob. cbn [_iglob].
  rewrite (os_path_split_under d _ St).
  assert (Hm : has_magic (d ++ SEP :: a ++ STAR :: b) = true).
  { replace (d ++ SEP :: a ++ STAR :: b) with ((d ++ SEP :: a) ++ STAR :: b)
      by by rewrite <- app_assoc.
    apply has_magic_star. }
  rewrite Hm. cbn [negb].
  pose proof (listed_dir_nonempty d) as Hne.
  rewrite (has_magic_false _ (listed_dir_no_magic d Hd)), andb_false_r.
  rewrite has_magic_star.
  rewrite (match_nonempty (listed_dir d)) by done.
  cbn [generate_in fst snd].
  unfold _glob1, _listdir, os_scandir. rewrite ishidden_pattern.
  rewrite (match_nonempty (listed_dir d)) by done.
  unfold fnmatch_filter.
  destruct (os_stat w (listed_dir d)) as [[| |e]|[bs|es]]; try done.
  { by destruct (negb (_ishidden a)). }
  { by destruct (negb (_ishidden a)). }
  rewrite app_nil_r.
  rewrite (List.filter_ext _ (affix_match a b)
             (fun n => fnmatch_affixes a b n Ha Hb)).
  rewrite (filter_all (fun e : str * node => negb false || is_dir_node (snd e)))
    by done.
  destruct (_ishidden a); cbn [negb orb].
  - apply (f_equal inr), (f_equal (map (os_path_join (listed_dir d)))).
    apply List.filter_ext. by intros n.
  - by rewrite filter_filter.
Qed.

(** A directory path made of the characters of a path stays so when its
    trailing separators are taken away. *)
Lemma forallb_lstrip_sep (f : codepoint -> bool) l :
  forallb f l = true -> forallb f (lstrip_sep l) = true.
Proof.
  induction l as [|c l IH]; simpl; [done|].
  intros [Hc Hl]%andb_true_iff. destruct (is_sep c); [auto|].
  simpl. by rewrite Hc, Hl.
Qed.

Lemma existsb_rev {A} (f : A -> bool) l : existsb f (rev l) = existsb f l.
Proof.
  apply eq_true_iff_eq. rewrite !existsb_exists.
  split; intros (x & Hx & Hf); exists x; (split; [|done]);
    by apply in_rev in Hx || apply in_rev.
Qed.

Lemma existsb_lstrip_sep (f : codepoint -> bool) l :
  f SEP = false -> existsb f (lstrip_sep l) = existsb f l.
Proof.
  intros Hf. induction l as [|c l IH]; simpl; [done|].
  destruct (is_sep c) eqn:E; [|done]. unfold is_sep in E.
  apply N.eqb_eq in E. subst c. by rewrite Hf, IH.
Qed.

Lemma forallb_lstrip_sep_eq (f : codepoint -> bool) l :
  f SEP = true -> forallb f (lstrip_sep l) = forallb f l.
Proof.
  intros Hf. induction l as [|c l IH]; simpl; [done|].
  destruct (is_sep c) eqn:E; [|done]. unfold is_sep in E.
  apply N.eqb_eq in E. subst c. by rewrite Hf, IH.
Qed.

Lemma fs_str_app a b : fs_str (a ++ b) = fs_str a && fs_str b.
Proof.
  unfold fs_str. rewrite forallb_app, existsb_app, negb_orb.
  destruct (forallb fs_encodable a), (forallb fs_encodable b),
    (existsb is_null a), (existsb is_null b); reflexivity.
Qed.

Lemma fs_str_rstrip_sep s : fs_str (rstrip_sep s) = fs_str s.
Proof.
  unfold fs_str, rstrip_sep.
  rewrite forallb_rev, existsb_rev, forallb_lstrip_sep_eq,
    existsb_lstrip_sep, forallb_rev, existsb_rev; done.
Qed.

Lemma fs_str_listed_dir d : fs_str (listed_dir d) = fs_str d.
Proof.
  assert (H : fs_str (d ++ [SEP]) = fs_str d).
  { rewrite fs_str_app. change (fs_str [SEP]) with true. apply andb_true_r. }
  destruct (listed_dir_cases d) as [->|[-> _]]; [done|].
  by rewrite fs_str_rstrip_sep.
Qed.

(** ** The target of [copy_file] *)

Lemma fs_str_Forall p :
  fs_str p = true
  <-> Forall (fun c => fs_encodable c = true /\ is_null c = false) p.
Proof.
  unfold fs_str. induction p as [|c p IH]; simpl.
  - split; [constructor|done].
  - rewrite Forall_cons, <- IH.
    destruct (fs_encodable c), (is_null c); simpl;
      rewrite ?andb_false_r; intuition congruence.
Qed.

Lemma tail_from_Forall (P : codepoint -> Prop) p : forall acc,
  Forall P acc -> Forall P p -> Forall P (tail_from acc p).
Proof.
  induction p as [|c p IH]; intros acc Hacc Hp; simpl.
  - by apply Forall_rev.
  - apply Forall_cons in Hp as [Hc Hp].
    destruct (is_sep c); apply IH; try done; by constructor.
Qed.

Lemma fs_str_basename p : fs_str p = true -> fs_str (os_path_basename p) = true.
Proof.
  rewrite !fs_str_Forall. intros H. by apply tail_from_Forall.
Qed.

Lemma copy_file_target src dest :
  copy_file src dest = shutil_copyfile src (copy_target src dest).
Proof. done. Qed.

Lemma copy_target_join src dest :
  os_path_basename dest <> [] ->
  copy_target src dest = dest ++ SEP :: os_path_basename src.
Proof.
  intros H. unfold copy_target. rewrite (os_path_join_basename _ src H).
  by destruct (os_path_basename dest).
Qed.

Lemma fs_str_copy_target src dest :
  fs_str (copy_target src dest) = fs_str dest && 
  (bool_decide (os_path_basename dest = []) || fs_str (os_path_basename src)).
Proof.
  destruct (decide (os_path_basename dest = [])) as [E|E].
  - unfold copy_target. rewrite E, bool_decide_eq_true_2 by done.
    by rewrite andb_true_r.
  - rewrite (copy_target_join _ _ E), bool_decide_eq_false_2 by done.
    change (dest ++ SEP :: os_path_basename src)
      with (dest ++ [SEP] ++ os_path_basename src).
    by rewrite !fs_str_app.
Qed.

Lemma fs_str_copy_target_accepted src dest :
  fs_str src = true -> fs_str dest = true ->
  fs_str (copy_target src dest) = true.
Proof.
  intros Hs Hd. rewrite fs_str_copy_target, Hd, (fs_str_basename _ Hs).
  by rewrite orb_true_r.
Qed.

Lemma fs_str_copy_target_refused src dest :
  fs_str dest = false -> fs_str (copy_target src dest) = false.
Proof. intros Hd. by rewrite fs_str_copy_target, Hd. Qed.

(** * The claims *)

(** ** Listing files *)

(** C1 (as stated, refuted) on a directory [/d] that holds [ab], [.x] and
    [a].  With [suffix="b"] and [prefix="a"] the result is empty although
    the base name [ab] begins with the prefix and ends with the suffix;
    with both empty, [.x] is not returned; with both ["a"], [a] is not
    returned although it begins and ends with ["a"].  An affix is a glob
    pattern, not a literal: with ["?"] in front, [ab] and [a] are returned
    and do not begin with a question mark; with ["d/a"] in front and the
    directory [/], entries of [/d] are returned. *)
Lemma get_file_list_claim_fails :
  os_scandir demo (py "/d")
  = Some [(py "ab", File []); (py ".x", File []); (py "a", File [])] /\
  (snd (get_file_list (py "/d") (py "b") (py "a") demo) = inr [] /\
   startswith (py "a") (py "ab") = true /\ endswith (py "b") (py "ab") = true) /\
  (snd (get_file_list (py "/d") [] [] demo) = inr [py "/d/ab"; py "/d/a"] /\
   startswith [] (py ".x") = true /\ endswith [] (py ".x") = true) /\
  (snd (get_file_list (py "/d") (py "a") (py "a") demo) = inr [] /\
   startswith (py "a") (py "a") = true /\ endswith (py "a") (py "a") = true) /\
  (snd (get_file_list (py "/d") (py "?") [] demo) = inr [py "/d/ab"; py "/d/a"] /\
   startswith (py "?") (py "ab") = false) /\
  (snd (get_file_list (py "/") (py "d/a") [] demo)
   = inr [py "//d/ab"; py "//d/a"] /\
   startswith (py "d/a") (os_path_basename (py "//d/ab")) = false).
Proof. repeat split; vm_compute; reflexivity. Qed.

(** C1 (amended): for a directory path and two affixes without glob
    metacharacters, the affixes without ["/"], and a directory path the
    interpreter accepts as a path (it can be encoded for the file system
    and holds no null character), [get_file_list(src_dir, suffix,
    prefix)] lists the directory [src_dir] (read without its trailing
    slashes) and returns, in directory order, the joined path of every
    entry whose name begins with the argument [suffix] and, after it,
    ends with the argument [prefix], leaving out the names that begin
    with a dot unless [suffix] does; the result is empty when the
    directory cannot be listed.  A directory path the interpreter
    refuses makes the call raise [UnicodeEncodeError] or [ValueError].
    The state does not change. *)
Theorem get_file_list_spec w src_dir suffix prefix :
  no_magic src_dir -> no_magic suffix -> no_magic prefix ->
  no_sep suffix -> no_sep prefix ->
  (fs_str src_dir = true ->
   get_file_list src_dir suffix prefix w
   = (w, inr match os_scandir w (listed_dir src_dir) with
             | Some es =>
                 map (os_path_join (listed_dir src_dir))
                   (List.filter
                      (fun n => (_ishidden suffix || negb (_ishidden n))
                                && affix_match suffix prefix n)
                      (map fst es))
             | None => []
             end)) /\
  (fs_str src_dir = false ->
   exists e, get_file_list src_dir suffix prefix w = (w, inl e) /\
             (e = UnicodeEncodeError \/ e = ValueError)) /\
  (forall n, affix_match suffix prefix n = true
             <-> exists mid, n = suffix ++ mid ++ prefix) /\
  (src_dir <> [] -> endswith [SEP] src_dir = false ->
   listed_dir src_dir = src_dir).
Proof.
  intros Hd Ha Hb Sa Sb. split; [|split; [|split]].
  - intros Hf. rewrite <- fs_str_listed_dir in Hf.
    unfold get_file_list. rewrite glob_glob_affixes by done.
    destruct (os_stat_accepted w _ Hf) as [[e ->]|[n ->]]; done.
  - intros Hf. rewrite <- fs_str_listed_dir in Hf.
    unfold get_file_list. rewrite glob_glob_affixes by done.
    destruct (os_stat_refused w _ Hf) as [-> | ->]; eauto.
  - intros n. apply affix_match_spec.
  - apply listed_dir_plain.
Qed.

Lemma get_file_list_spec_witness :
  get_file_list (py "/d") (py "a") (py "b") demo = (demo, inr [py "/d/ab"]) /\
  get_file_list (py "/nowhere") (py "a") (py "b") demo = (demo, inr []) /\
  exists e, get_file_list [100; 0] (py "a") (py "b") demo = (demo, inl e).
Proof.
  split; [|split].
  - destruct (get_file_list_spec demo (py "/d") (py "a") (py "b"))
      as (H & _); [repeat constructor ..|].
    rewrite H; reflexivity.
  - destruct (get_file_list_spec demo (py "/nowhere") (py "a") (py "b"))
      as (H & _); [repeat constructor ..|].
    rewrite H; reflexivity.
  - destruct (get_file_list_spec demo [100; 0] (py "a") (py "b"))
      as (_ & H & _); [repeat constructor ..|].
    destruct H as (e & H & _); [reflexivity|]. by exists e.
Defined.

(** ** Copying several files *)

(** C2: [copy_files] never gets past the validation of [dest_dir]:
    whatever the destination is, an existing directory or not, the call
    ends in the [TypeError] of [os.path.isdir(str)] and changes nothing;
    it neither accepts an existing directory nor reports the missing one
    with [FileNotFoundError]. *)
Theorem copy_files_validation_never_passes w src_list dest_dir ignore_none_file :
  copy_files src_list dest_dir ignore_none_file w = (w, inl TypeError).
Proof. reflexivity. Qed.

(** C3: with at least one source that is not an existing file, the lines
    of [copy_files] that follow the validation raise [FileNotFoundError]
    with the missing paths joined by [", "] and leave the file system as
    it was; the function itself stops before them, in the [TypeError] of
    its validation. *)
Theorem copy_files_missing_sources w src_list items dest_dir :
  heap w !! src_list = Some items ->
  Exists (fun p => os_path_isfile w p = false) items ->
  (exists w',
     copy_files_body src_list dest_dir false w
     = (w', inl (FileNotFoundError
                   (str_join (py ", ")
                      (List.filter (fun p => negb (os_path_isfile w p)) items)))) /\
     root w' = root w) /\
  copy_files src_list dest_dir false w = (w, inl TypeError).
Proof.
  intros Hl Hex. split; [|reflexivity].
  rewrite (copy_files_body_run _ _ _ _ _ Hl). cbv zeta.
  destruct (List.filter (fun p => negb (os_path_isfile w p)) items)
    as [|m ms] eqn:E.
  - exfalso. apply Exists_exists in Hex as (p & Hin & Hp).
    assert (In p (List.filter (fun p => negb (os_path_isfile w p)) items)).
    { apply List.filter_In. split; [by apply list_elem_of_In|by rewrite Hp]. }
    rewrite E in *. done.
  - simpl. eauto.
Qed.

Lemma copy_files_missing_sources_witness :
  (exists w',
     copy_files_body demo_list (py "/out") false demo
     = (w', inl (FileNotFoundError (py "/tmp/missing.txt"))) /\
     root w' = root demo) /\
  copy_files demo_list (py "/out") false demo = (demo, inl TypeError).
Proof.
  apply (copy_files_missing_sources demo demo_list
           [py "/tmp/a.txt"; py "/tmp/missing.txt"; py "/tmp/b.txt"] (py "/out")).
  - reflexivity.
  - apply Exists_cons_tl, Exists_cons_hd. reflexivity.
Defined.

(** C4: with [ignore_none_file=True] the lines of [copy_files] that
    follow the validation copy the sources that are existing files, in
    order, each to [dest_dir] under its own base name, and do nothing for
    the others; the function itself stops before them, in the [TypeError]
    of its validation. *)
Theorem copy_files_ignore_missing w src_list items dest_dir :
  heap w !! src_list = Some items ->
  copy_files_body src_list dest_dir true w
  = for_each (List.filter (os_path_isfile w) items)
      (fun src => shutil_copyfile src
                    (os_path_join dest_dir (os_path_basename src)))
      (set_heap w (<[fresh (dom (heap w))
                     := List.filter (os_path_isfile w) items]> (heap w))) /\
  copy_files src_list dest_dir true w = (w, inl TypeError).
Proof.
  intros Hl. split; [|reflexivity].
  rewrite (copy_files_body_run _ _ _ _ _ Hl). cbv zeta.
  by destruct (List.filter (fun p => negb (os_path_isfile w p)) items).
Qed.

Lemma copy_files_ignore_missing_witness :
  (snd (copy_files_body demo_list (py "/out") true demo) = inr tt /\
   os_scandir (fst (copy_files_body demo_list (py "/out") true demo)) (py "/out")
   = Some [(py "a.txt", File (py "a" ++ [CR; LF] ++ py "b"));
           (py "b.txt", File (py "a" ++ [LF] ++ py "b" ++ [LF] ++ py "c"))]) /\
  copy_files demo_list (py "/out") true demo = (demo, inl TypeError).
Proof.
  destruct (copy_files_ignore_missing demo demo_list
              [py "/tmp/a.txt"; py "/tmp/missing.txt"; py "/tmp/b.txt"]
              (py "/out")) as [Hbody Hall]; [reflexivity|].
  split; [|exact Hall].
  rewrite Hbody. split; vm_compute; reflexivity.
Defined.

(** ** Reading files *)

(** C5 (as stated in the specification, refuted): on a file that holds
    ["a\r\nb"], [read_file_lines] returns [["a"; "b"]], and not
    [["a\r"; "b"]]: the carriage return is not preserved. *)
Lemma read_file_lines_drops_carriage_return :
  os_stat demo (py "/tmp/a.txt") = inr (File (py "a" ++ [CR; LF] ++ py "b")) /\
  snd (read_file_lines (py "/tmp/a.txt") (py "utf-8") demo)
  = inr [py "a"; py "b"] /\
  snd (read_file_lines (py "/tmp/a.txt") (py "utf-8") demo)
  <> inr [py "a" ++ [CR]; py "b"].
Proof. repeat split; [vm_compute; reflexivity ..|vm_compute; discriminate]. Qed.

(** C5 (amended): for a file whose bytes decode to the text [t],
    [read_file_lines] returns the pieces of [t] between line ends, where
    ["\r\n"], ["\r"] and ["\n"] all end a line: the lines are the split at
    ["\n"] of the text with universal newlines applied, joining them with
    ["\n"] gives that text back, and no line holds a carriage return or a
    line feed. *)
Theorem read_file_lines_universal_newlines w filepath encoding cd b t :
  os_stat w filepath = inr (File b) ->
  lookup_codec (lib w) encoding = Some cd ->
  decode cd b = Some t ->
  exists lines,
    read_file_lines filepath encoding w = (w, inr lines) /\
    lines = str_split (universal_newlines t) LF /\
    str_join [LF] lines = universal_newlines t /\
    Forall (fun line => no_cr line /\ Forall (fun c => c <> LF) line) lines.
Proof.
  intros Hs Hc Hd. exists (str_split (universal_newlines t) LF).
  split; [|split; [done|split]].
  - unfold read_file_lines, bind.
    by rewrite (read_file_text _ _ _ _ _ Hs Hc), Hd.
  - apply str_join_split.
  - pose proof (str_split_pieces _ _ LF (translate_newlines_no_cr t false)) as H1.
    pose proof (str_split_no_sep (universal_newlines t) LF) as H2.
    unfold no_cr, universal_newlines in *.
    rewrite Forall_forall in *. intros x Hx. split; [by apply H1|by apply H2].
Qed.

Lemma read_file_lines_universal_newlines_witness :
  (exists lines,
     read_file_lines (py "/tmp/a.txt") (py "utf-8") demo = (demo, inr lines) /\
     lines = [py "a"; py "b"]) /\
  (exists lines,
     read_file_lines (py "/tmp/b.txt") (py "utf-8") demo = (demo, inr lines) /\
     lines = [py "a"; py "b"; py "c"]).
Proof.
  split.
  - destruct (read_file_lines_universal_newlines demo (py "/tmp/a.txt")
                (py "utf-8") (Codec Utf8.decode Utf8.encode)
                (py "a" ++ [CR; LF] ++ py "b") (py "a" ++ [CR; LF] ++ py "b"))
      as (lines & H1 & H2 & _); [reflexivity ..|].
    exists lines. split; [exact H1|]. rewrite H2. reflexivity.
  - destruct (read_file_lines_universal_newlines demo (py "/tmp/b.txt")
                (py "utf-8") (Codec Utf8.decode Utf8.encode)
                (py "a" ++ [LF] ++ py "b" ++ [LF] ++ py "c")
                (py "a" ++ [LF] ++ py "b" ++ [LF] ++ py "c"))
      as (lines & H1 & H2 & _); [reflexivity ..|].
    exists lines. split; [exact H1|]. rewrite H2. reflexivity.
Defined.

(** C6 (as stated, refuted): on an existing file that holds ["a\r\nb"],
    [read_file] with [is_binary=True] does not return the bytes (it raises
    [ValueError]: [open] refuses an encoding in binary mode), and with
    [is_binary=False] it does not return the decoded content ["a\r\nb"]
    but ["a\nb"]. *)
Lemma read_file_content_claim_fails :
  os_stat demo (py "/tmp/a.txt") = inr (File (py "a" ++ [CR; LF] ++ py "b")) /\
  Utf8.decode (py "a" ++ [CR; LF] ++ py "b") = Some (py "a" ++ [CR; LF] ++ py "b") /\
  snd (read_file (py "/tmp/a.txt") (py "utf-8") true demo)
  <> inr (Bytes (py "a" ++ [CR; LF] ++ py "b")) /\
  snd (read_file (py "/tmp/a.txt") (py "utf-8") false demo)
  <> inr (Text (py "a" ++ [CR; LF] ++ py "b")).
Proof.
  repeat split; [vm_compute; reflexivity ..| |]; vm_compute; discriminate.
Qed.

(** C6 (amended): for an existing file whose bytes decode to [t] under
    the encoding, [read_file] with [is_binary=False] returns [t] with
    universal newlines applied (["\r\n"] and ["\r"] read as ["\n"]), which
    is [t] itself when [t] holds no carriage return. *)
Theorem read_file_text_mode w filepath encoding cd b t :
  os_stat w filepath = inr (File b) ->
  lookup_codec (lib w) encoding = Some cd ->
  decode cd b = Some t ->
  read_file filepath encoding false w = (w, inr (Text (universal_newlines t))) /\
  (no_cr t -> read_file filepath encoding false w = (w, inr (Text t))).
Proof.
  intros Hs Hc Hd.
  assert (H : read_file filepath encoding false w
              = (w, inr (Text (universal_newlines t)))).
  { by rewrite (read_file_text _ _ _ _ _ Hs Hc), Hd. }
  split; [exact H|]. intros Hn. by rewrite H, universal_newlines_id.
Qed.

Lemma read_file_text_mode_witness :
  read_file (py "/tmp/b.txt") (py "utf-8") false demo
  = (demo, inr (Text (py "a" ++ [LF] ++ py "b" ++ [LF] ++ py "c"))).
Proof.
  apply (read_file_text_mode demo (py "/tmp/b.txt") (py "utf-8")
           (Codec Utf8.decode Utf8.encode)
           (py "a" ++ [LF] ++ py "b" ++ [LF] ++ py "c")
           (py "a" ++ [LF] ++ py "b" ++ [LF] ++ py "c"));
    [reflexivity ..|].
  unfold no_cr. repeat constructor; discriminate.
Defined.

(** ** Copying one file *)

(** C7 (as stated, refuted): a source that does not exist does not
    always give [FileNotFoundError].  [/tmp/a.txt] is a regular file, so
    [/tmp/a.txt/x] does not exist, and copying it raises
    [NotADirectoryError]; and with a missing source and a destination
    that holds a null character the call raises [ValueError], from the
    [os.stat] that [shutil.copyfile] makes on the target before it opens
    the source. *)
Lemma copy_file_missing_source_claim_fails :
  (os_path_exists demo (py "/tmp/a.txt/x") = false /\
   snd (copy_file (py "/tmp/a.txt/x") (py "/out") demo)
   = inl (NotADirectoryError (py "/tmp/a.txt/x"))) /\
  (os_path_exists demo (py "/tmp/missing.txt") = false /\
   snd (copy_file (py "/tmp/missing.txt") (py "/out" ++ [0]) demo)
   = inl ValueError).
Proof. repeat split; vm_compute; reflexivity. Qed.

(** C7 (amended): when the base name of [dest] is not empty, [copy_file]
    copies to [dest/basename(src)], whatever [dest] is.  With a [dest]
    the interpreter accepts as a path, a [src] that [os.stat] does not
    find makes it raise the error of that lookup, for [src]:
    [FileNotFoundError] when the lookup ends in ENOENT (the file is
    missing from an existing directory, or a directory on the way is),
    [NotADirectoryError] when a name on the way is a regular file.  A
    [src] or a [dest] the interpreter refuses gives [UnicodeEncodeError]
    or [ValueError].  When [src] is a regular file and
    [dest/basename(src)] can be written and is not [src] itself, the copy
    succeeds and [dest/basename(src)] then holds the content of [src]. *)
Theorem copy_file_spec w src dest :
  (os_path_basename dest <> [] ->
   copy_file src dest w
   = shutil_copyfile src (dest ++ SEP :: os_path_basename src) w) /\
  (forall e, os_stat w src = inl (Errno e) -> fs_str dest = true ->
   copy_file src dest w = (w, inl (oserror e src))) /\
  (os_stat w src = inl (Errno ENOENT) -> fs_str dest = true ->
   copy_file src dest w = (w, inl (FileNotFoundError src))) /\
  (os_stat w src = inl (Errno ENOTDIR) -> fs_str dest = true ->
   copy_file src dest w = (w, inl (NotADirectoryError src))) /\
  (fs_str src = false \/ fs_str dest = false ->
   exists e, copy_file src dest w = (w, inl e) /\
             (e = UnicodeEncodeError \/ e = ValueError)) /\
  (forall b,
     os_path_basename dest <> [] ->
     os_stat w src = inr (File b) ->
     writable w (dest ++ SEP :: os_path_basename src) = true ->
     resolve w src <> resolve w (dest ++ SEP :: os_path_basename src) ->
     exists w',
       copy_file src dest w = (w', inr tt) /\
       os_stat w' (dest ++ SEP :: os_path_basename src) = inr (File b) /\
       same_dirs w w').
Proof.
  assert (Hre : os_path_basename dest <> [] ->
                copy_file src dest w
                = shutil_copyfile src (dest ++ SEP :: os_path_basename src) w).
  { intros H. by rewrite copy_file_target, copy_target_join. }
  assert (Herr : forall e, os_stat w src = inl (Errno e) ->
                           fs_str dest = true ->
                           copy_file src dest w = (w, inl (oserror e src))).
  { intros e Hs Hd. rewrite copy_file_target.
    apply shutil_copyfile_errno; [done|].
    apply fs_str_copy_target_accepted; [|done].
    by eapply os_stat_errno_fs_str. }
  split; [exact Hre|]. split; [exact Herr|].
  split; [apply Herr|]. split; [apply Herr|]. split.
  - intros H. rewrite copy_file_target. apply shutil_copyfile_refused.
    destruct H as [H|H]; [by left|right].
    by apply fs_str_copy_target_refused.
  - intros b Hb Hs Hw Hne. rewrite (Hre Hb). by apply shutil_copyfile_ok.
Qed.

Lemma copy_file_spec_witness :
  copy_file (py "/tmp/a.txt") (py "/out") demo
  = shutil_copyfile (py "/tmp/a.txt") (py "/out/a.txt") demo /\
  copy_file (py "/tmp/missing.txt") (py "/out") demo
  = (demo, inl (FileNotFoundError (py "/tmp/missing.txt"))) /\
  copy_file (py "/tmp/a.txt/x") (py "/out") demo
  = (demo, inl (NotADirectoryError (py "/tmp/a.txt/x"))) /\
  exists w',
    copy_file (py "/tmp/a.txt") (py "/out") demo = (w', inr tt) /\
    os_stat w' (py "/out/a.txt") = inr (File (py "a" ++ [CR; LF] ++ py "b")) /\
    same_dirs demo w'.
Proof.
  split; [|split; [|split]].
  - apply (copy_file_spec demo (py "/tmp/a.txt") (py "/out")).
    vm_compute. discriminate.
  - apply (copy_file_spec demo (py "/tmp/missing.txt") (py "/out"));
      reflexivity.
  - apply (copy_file_spec demo (py "/tmp/a.txt/x") (py "/out"));
      reflexivity.
  - apply (proj2 (proj2 (proj2 (proj2 (proj2
             (copy_file_spec demo (py "/tmp/a.txt") (py "/out"))))))
             (py "a" ++ [CR; LF] ++ py "b")).
    + vm_compute. discriminate.
    + reflexivity.
    + reflexivity.
    + vm_compute. discriminate.
Defined.

(** A destination that is a full file path is taken for a directory too:
    copying onto [/tmp/b.txt] aims at [/tmp/b.txt/a.txt]. *)
Example copy_file_onto_file_path :
  snd (copy_file (py "/tmp/a.txt") (py "/tmp/b.txt") demo)
  = inl (NotADirectoryError (py "/tmp/b.txt/a.txt")).
Proof. vm_compute. reflexivity. Qed.

(** ** Reading JSON *)

(** C8 (as stated, refuted): a missing file does not always give
    [FileNotFoundError], and not for every encoding.  [/tmp/a.txt] is a
    regular file, so [/tmp/a.txt/x] does not exist, and reading it raises
    [NotADirectoryError]; and with an encoding name that holds a null
    character the call raises [ValueError] before it looks for the
    file. *)
Lemma read_json_file_missing_file_claim_fails :
  (os_path_exists demo (py "/tmp/a.txt/x") = false /\
   snd (read_json_file (py "/tmp/a.txt/x") (py "utf-8") demo)
   = inl (NotADirectoryError (py "/tmp/a.txt/x"))) /\
  (os_path_exists demo (py "/tmp/missing.json") = false /\
   snd (read_json_file (py "/tmp/missing.json") (py "utf-8" ++ [0]) demo)
   = inl ValueError).
Proof. repeat split; vm_compute; reflexivity. Qed.

(** C8 (amended): [read_json_file] is [read_file] in text mode followed
    by [json.loads]: what [read_file] raises, it raises, and on the text
    [read_file] returns it gives what [json.loads] gives.  With an
    encoding name that [open] accepts, a file that [os.stat] does not
    find makes it raise the error of that lookup: [FileNotFoundError]
    when the lookup ends in ENOENT, [NotADirectoryError] when a name on
    the way is a regular file; an encoding name that [open] refuses is
    raised as such, before the file is looked for.  For a file whose
    bytes decode to the text [t] it gives what parsing [t] directly
    gives, a value or the error of the reader ([JSONDecodeError] when [t]
    is not valid JSON).  This holds for every JSON reader when [t] holds
    no carriage return, and for every text when the reader, as JSON
    requires, does not tell the line ends ["\r\n"], ["\r"] and ["\n"]
    apart. *)
Theorem read_json_file_composition w filepath encoding :
  (forall w' e,
     read_file filepath encoding false w = (w', inl e) ->
     read_json_file filepath encoding w = (w', inl e)) /\
  (forall w' s,
     read_file filepath encoding false w = (w', inr (Text s)) ->
     read_json_file filepath encoding w = (w', json_loads (lib w') s)) /\
  (forall e, str_arg encoding = None -> os_stat w filepath = inl (Errno e) ->
   read_json_file filepath encoding w = (w, inl (oserror e filepath))) /\
  (str_arg encoding = None -> os_stat w filepath = inl (Errno ENOENT) ->
   read_json_file filepath encoding w = (w, inl (FileNotFoundError filepath))) /\
  (str_arg encoding = None -> os_stat w filepath = inl (Errno ENOTDIR) ->
   read_json_file filepath encoding w
   = (w, inl (NotADirectoryError filepath))) /\
  (forall e, str_arg encoding = Some e ->
   read_json_file filepath encoding w = (w, inl e)) /\
  (forall cd b t,
     os_stat w filepath = inr (File b) ->
     lookup_codec (lib w) encoding = Some cd ->
     decode cd b = Some t ->
     no_cr t \/
     (forall s, json_loads (lib w) (universal_newlines s) = json_loads (lib w) s) ->
     read_json_file filepath encoding w = (w, json_loads (lib w) t)).
Proof.
  assert (Herr : forall e, str_arg encoding = None ->
                   os_stat w filepath = inl (Errno e) ->
                   read_json_file filepath encoding w
                   = (w, inl (oserror e filepath))).
  { intros e Ha Hs. unfold read_json_file, bind.
    by rewrite read_file_eq, Ha, Hs. }
  split; [|split; [|split; [exact Herr|split; [|split; [|split]]]]].
  - intros w' e H. unfold read_json_file, bind. by rewrite H.
  - intros w' s' H. unfold read_json_file, bind. by rewrite H.
  - intros Ha. by apply Herr.
  - intros Ha. by apply Herr.
  - intros e Ha. unfold read_json_file, bind. by rewrite read_file_eq, Ha.
  - intros cd b t Hs Hc Hd Hnl. unfold read_json_file, bind.
    rewrite (read_file_text _ _ _ _ _ Hs Hc), Hd.
    unfold json_loads_content.
    by destruct Hnl as [Hn|Hnl]; [rewrite universal_newlines_id|rewrite Hnl].
Qed.

Lemma read_json_file_composition_witness :
  read_json_file (py "/tmp/missing.json") (py "utf-8") demo
  = (demo, inl (FileNotFoundError (py "/tmp/missing.json"))) /\
  read_json_file (py "/tmp/a.txt/x") (py "utf-8") demo
  = (demo, inl (NotADirectoryError (py "/tmp/a.txt/x"))) /\
  read_json_file (py "/tmp/data.json") (py "utf-8") demo
  = (demo, inr (JObject [(py "k", JArray [JNumber (py "1"); JBool true])])) /\
  read_json_file (py "/tmp/b.txt") (py "utf-8") demo
  = (demo, inl JSONDecodeError).
Proof.
  split; [|split; [|split]].
  - apply (proj1 (proj2 (proj2 (proj2
             (read_json_file_composition demo (py "/tmp/missing.json")
                (py "utf-8"))))));
      reflexivity.
  - apply (proj1 (proj2 (proj2 (proj2 (proj2
             (read_json_file_composition demo (py "/tmp/a.txt/x")
                (py "utf-8")))))));
      reflexivity.
  - apply (proj2 (proj2 (proj2 (proj2 (proj2 (proj2
             (read_json_file_composition demo (py "/tmp/data.json")
                (py "utf-8")))))))
             (Codec Utf8.decode Utf8.encode) demo_json demo_json);
      [reflexivity ..|right; exact std_json_loads_newlines].
  - apply (proj2 (proj2 (proj2 (proj2 (proj2 (proj2
             (read_json_file_composition demo (py "/tmp/b.txt")
                (py "utf-8")))))))
             (Codec Utf8.decode Utf8.encode)
             (py "a" ++ [LF] ++ py "b" ++ [LF] ++ py "c")
             (py "a" ++ [LF] ++ py "b" ++ [LF] ++ py "c"));
      [reflexivity ..|left; unfold no_cr; repeat constructor; discriminate].
Defined.

(** ** The caller's list *)

(** C9 (as stated, refuted): after the lines that remove the missing
    entries and copy the files have run, the caller's list still holds
    the entry that is not an existing file; so it does after a call of
    [copy_files]. *)
Lemma copy_files_keeps_callers_list :
  os_path_isfile demo (py "/tmp/missing.txt") = false /\
  snd (copy_files_body demo_list (py "/out") true demo) = inr tt /\
  heap (fst (copy_files_body demo_list (py "/out") true demo)) !! demo_list
  = Some [py "/tmp/a.txt"; py "/tmp/missing.txt"; py "/tmp/b.txt"] /\
  heap (fst (copy_files demo_list (py "/out") true demo)) !! demo_list
  = Some [py "/tmp/a.txt"; py "/tmp/missing.txt"; py "/tmp/b.txt"].
Proof. repeat split; vm_compute; reflexivity. Qed.

(** C9 (amended): a call of [copy_files] leaves the caller's [src_list]
    as it was.  As the code stands the call stops in the validation,
    before the list is looked at.  The lines after the validation do not
    change it either, whatever validation comes before them that leaves
    the list objects alone: they work on a shallow copy, the missing
    entries are removed from that new list object, which then holds the
    existing files, and the caller's list keeps all its entries. *)
Theorem copy_files_src_list_unchanged w src_list dest_dir ignore_none_file :
  heap (fst (copy_files src_list dest_dir ignore_none_file w)) !! src_list
  = heap w !! src_list /\
  (forall validate : M unit, keeps_heap validate ->
     heap (fst ((validate ;;;
                 copy_files_body src_list dest_dir ignore_none_file) w))
       !! src_list
     = heap w !! src_list) /\
  heap (fst (copy_files_body src_list dest_dir ignore_none_file w)) !! src_list
  = heap w !! src_list /\
  (forall items,
     heap w !! src_list = Some items ->
     heap (fst (copy_files_body src_list dest_dir ignore_none_file w))
       !! fresh (dom (heap w))
     = Some (List.filter (os_path_isfile w) items)).
Proof.
  assert (Hrun : forall w items, heap w !! src_list = Some items ->
    heap (fst (copy_files_body src_list dest_dir ignore_none_file w))
    = <[fresh (dom (heap w)) := List.filter (os_path_isfile w) items]> (heap w)).
  { intros w0 items Hl. rewrite (copy_files_body_run _ _ _ _ _ Hl). cbv zeta.
    destruct (List.filter (fun p => negb (os_path_isfile w0 p)) items);
      [|destruct ignore_none_file; cbn [negb]; [|done]];
      by rewrite for_each_heap by (intros; apply shutil_copyfile_heap). }
  assert (Hbody : forall w,
    heap (fst (copy_files_body src_list dest_dir ignore_none_file w))
      !! src_list = heap w !! src_list).
  { intros w0. destruct (heap w0 !! src_list) as [items|] eqn:Hl.
    + rewrite (Hrun _ _ Hl), lookup_insert_ne; [done|].
      intros E. apply (is_fresh (dom (heap w0))). rewrite E.
      apply elem_of_dom. eauto.
    + unfold copy_files_body, list_copy, bind, list_get. by rewrite Hl. }
  assert (Hany : forall validate : M unit, keeps_heap validate ->
     heap (fst ((validate ;;;
                 copy_files_body src_list dest_dir ignore_none_file) w))
       !! src_list
     = heap w !! src_list).
  { intros validate Hv. unfold bind. specialize (Hv w).
    destruct (validate w) as [w1 [e|[]]]; simpl in Hv.
    - simpl. by rewrite Hv.
    - by rewrite Hbody, Hv. }
  split; [|split; [exact Hany|split; [apply Hbody|]]].
  - apply (Hany (__validate_path_dir__ dest_dir)). by intros w0.
  - intros items Hl. by rewrite (Hrun _ _ Hl), lookup_insert_eq.
Qed.

Lemma copy_files_src_list_unchanged_witness :
  heap (fst (copy_files_body demo_list (py "/out") false demo)) !! 1%nat
  = Some [py "/tmp/a.txt"; py "/tmp/b.txt"].
Proof.
  apply (proj2 (proj2 (proj2 (copy_files_src_list_unchanged demo demo_list
                                (py "/out") false)))
           [py "/tmp/a.txt"; py "/tmp/missing.txt"; py "/tmp/b.txt"]).
  reflexivity.
Defined.

(** ** Converting the character set *)

(** C10 (as stated, refuted): ["a\r\nb"] is representable in UTF-8 and
    in Shift-JIS; converting the UTF-8 file that holds it to Shift-JIS and
    back to UTF-8 succeeds and leaves a file whose text is ["a\nb"].
    Converting a file onto itself, there and back, leaves it empty: the
    destination is truncated before the source is read.  The yen sign can
    be encoded in both, and comes back as a backslash: the codec writes it
    on the byte of the backslash. *)
Lemma round_trip_rewrites_line_ends :
  let text := py "a" ++ [CR; LF] ++ py "b" in
  let run :=
    (convert_file_charset (py "/tmp/a.txt") (py "/out/a.sjis")
       (py "utf-8") (py "shift_jis") ;;;
     convert_file_charset (py "/out/a.sjis") (py "/out/a.utf8")
       (py "shift_jis") (py "utf-8")) demo in
  let in_place :=
    (convert_file_charset (py "/tmp/b.txt") (py "/tmp/b.txt")
       (py "utf-8") (py "shift_jis") ;;;
     convert_file_charset (py "/tmp/b.txt") (py "/tmp/b.txt")
       (py "shift_jis") (py "utf-8")) demo in
  let yen :=
    (convert_file_charset (py "/tmp/yen.txt") (py "/out/y.sjis")
       (py "utf-8") (py "shift_jis") ;;;
     convert_file_charset (py "/out/y.sjis") (py "/out/y.utf8")
       (py "shift_jis") (py "utf-8")) demo in
  os_stat demo (py "/tmp/a.txt") = inr (File text) /\
  Utf8.decode text = Some text /\ Utf8.encode text = Some text /\
  ShiftJis.encode text = Some text /\ ShiftJis.decode text = Some text /\
  snd run = inr tt /\
  (exists b t, os_stat (fst run) (py "/out/a.utf8") = inr (File b) /\
               Utf8.decode b = Some t /\ t = py "a" ++ [LF] ++ py "b" /\
               t <> text) /\
  (os_stat demo (py "/tmp/b.txt")
   = inr (File (py "a" ++ [LF] ++ py "b" ++ [LF] ++ py "c")) /\
   snd in_place = inr tt /\
   os_stat (fst in_place) (py "/tmp/b.txt") = inr (File [])) /\
  (os_stat demo (py "/tmp/yen.txt") = inr (File [194; 165]) /\
   Utf8.decode [194; 165] = Some [165] /\
   ShiftJis.encode [165] = Some [92] /\
   snd yen = inr tt /\
   os_stat (fst yen) (py "/out/y.utf8") = inr (File [92]) /\
   Utf8.decode [92] = Some [92]).
Proof.
  do 6 (split; [vm_compute; reflexivity|]). split; [|split].
  - exists (py "a" ++ [LF] ++ py "b"), (py "a" ++ [LF] ++ py "b").
    do 3 (split; [vm_compute; reflexivity|]). vm_compute. discriminate.
  - repeat split; vm_compute; reflexivity.
  - repeat split; vm_compute; reflexivity.
Qed.

(** C10 (amended): let the source file decode to the text [t] under the
    first encoding, and let [t] with its line ends normalised
    (["\r\n"] and ["\r"] rewritten to ["\n"]) be representable in both
    encodings: it can be encoded and decodes back to itself.  If the
    intermediate and the final path can be written,
    the intermediate file is neither the source nor the final file, then
    converting to the second encoding and back succeeds and the final file
    holds the bytes of [t] with its line ends normalised, encoded in the
    first encoding: its text is [t] with its line ends normalised, and
    [t] itself when [t] holds no carriage return; [read_file] returns
    that text. *)
Theorem convert_file_charset_round_trip
    w src mid out e1 e2 c1 c2 b t b1 b2 :
  os_stat w src = inr (File b) ->
  lookup_codec (lib w) e1 = Some c1 ->
  lookup_codec (lib w) e2 = Some c2 ->
  decode c1 b = Some t ->
  encode c2 (universal_newlines t) = Some b1 ->
  decode c2 b1 = Some (universal_newlines t) ->
  encode c1 (universal_newlines t) = Some b2 ->
  decode c1 b2 = Some (universal_newlines t) ->
  writable w mid = true ->
  writable w out = true ->
  resolve w src <> resolve w mid ->
  resolve w mid <> resolve w out ->
  exists w',
    (convert_file_charset src mid e1 e2 ;;;
     convert_file_charset mid out e2 e1) w = (w', inr tt) /\
    os_stat w' out = inr (File b2) /\
    decode c1 b2 = Some (universal_newlines t) /\
    (no_cr t -> decode c1 b2 = Some t) /\
    read_file out e1 false w' = (w', inr (Text (universal_newlines t))) /\
    (no_cr t -> read_file out e1 false w' = (w', inr (Text t))).
Proof.
  intros Hs H1 H2 Hd He2 Hd2 He1 Hd1 Wm Wo Nsm Nmo.
  destruct (convert_file_charset_ok w src mid e1 e2 c1 c2 b t b1)
    as (w1 & Hrun1 & Hmid & S1); auto.
  assert (L1 : lib w1 = lib w) by apply S1.
  destruct (writable_inv _ _ Wm) as (cm & Hrm & _).
  destruct (writable_inv _ _ Wo) as (co & Hro & _).
  destruct (convert_file_charset_ok w1 mid out e2 e1 c2 c1 b1
              (universal_newlines t) b2)
    as (w2 & Hrun2 & Hout & S2); auto.
  - by eapply same_dirs_writable.
  - rewrite (same_dirs_resolve _ _ _ _ S1 Hrm), (same_dirs_resolve _ _ _ _ S1 Hro).
    congruence.
  - by rewrite L1.
  - by rewrite L1.
  - by rewrite universal_newlines_idem.
  - assert (L2 : lib w2 = lib w) by (destruct S2 as (_ & -> & _); done).
    assert (Hread : read_file out e1 false w2
                    = (w2, inr (Text (universal_newlines t)))).
    { rewrite (read_file_text w2 out e1 c1 b2 Hout) by by rewrite L2.
      by rewrite Hd1, universal_newlines_idem. }
    exists w2. split; [|split; [exact Hout|split; [exact Hd1|]]].
    + unfold bind. by rewrite Hrun1.
    + split; [|split; [exact Hread|]].
      * intros Hn. by rewrite Hd1, universal_newlines_id.
      * intros Hn. by rewrite Hread, universal_newlines_id.
Qed.

Lemma convert_file_charset_round_trip_witness :
  exists w',
    (convert_file_charset (py "/tmp/kana.txt") (py "/out/k.sjis")
       (py "utf-8") (py "shift_jis") ;;;
     convert_file_charset (py "/out/k.sjis") (py "/out/k.utf8")
       (py "shift_jis") (py "utf-8")) demo = (w', inr tt) /\
    os_stat w' (py "/out/k.utf8")
    = inr (File [239; 189; 177; 239; 189; 178]) /\
    read_file (py "/out/k.utf8") (py "utf-8") false w'
    = (w', inr (Text [65393; 65394])).
Proof.
  destruct (convert_file_charset_round_trip demo
              (py "/tmp/kana.txt") (py "/out/k.sjis") (py "/out/k.utf8")
              (py "utf-8") (py "shift_jis")
              (Codec Utf8.decode Utf8.encode)
              (Codec ShiftJis.decode ShiftJis.encode)
              [239; 189; 177; 239; 189; 178] [65393; 65394]
              [177; 178] [239; 189; 177; 239; 189; 178])
    as (w' & Hrun & Hfile & _ & _ & Hread & _);
    [reflexivity .. | vm_compute; discriminate | vm_compute; discriminate |].
  exists w'. split; [exact Hrun|]. split; [exact Hfile|exact Hread].
Defined.

(** * Further properties of the model *)

(** ** Paths and directory entries *)

Lemma str_split_length s sep :
  length (str_split s sep) = S (length (List.filter (fun c => c =? sep) s)).
Proof.
  induction s as [|c s IH]; simpl; [done|].
  destruct (c =? sep); simpl; [by rewrite IH|].
  destruct (str_split s sep) as [|x l] eqn:E; [by apply str_split_nonempty in E|].
  by rewrite <- IH.
Qed.

Lemma str_split_app_sep a b sep :
  str_split (a ++ sep :: b) sep = str_split a sep ++ str_split b sep.
Proof.
  induction a as [|c a IH]; simpl.
  - by rewrite N.eqb_refl.
  - rewrite IH. destruct (c =? sep); [done|].
    destruct (str_split a sep) as [|x l] eqn:E; [by apply str_split_nonempty in E|].
    done.
Qed.

Lemma str_split_plain n : no_sep n -> str_split n SEP = [n].
Proof.
  induction 1 as [|c n Hc _ IH]; simpl; [done|].
  unfold is_sep in Hc. by rewrite Hc, IH.
Qed.

Lemma valid_name_inv n :
  valid_name n = true ->
  n <> [] /\ no_sep n /\ str_eqb n [] = false /\
  str_eqb n [DOT] = false /\ str_eqb n [DOT; DOT] = false /\
  fs_str n = true /\ (NAME_MAX <? fs_length n) = false.
Proof.
  unfold valid_name. rewrite !andb_true_iff, !negb_true_iff.
  intros [[[[[H1 H2] H3] H4] H5] H6].
  split; [|split; [|repeat split; try done]].
  - intros ->. by rewrite str_eqb_refl in H1.
  - apply List.Forall_forall. intros c Hc.
    rewrite forallb_forall in H2. specialize (H2 c Hc).
    by apply negb_true_iff in H2.
  - apply N.ltb_ge. by apply N.leb_le.
Qed.

Lemma namei_child r cs es n :
  tree_get cs r = Some (Dir es) -> valid_name n = true ->
  namei r cs [n] = inr (cs ++ [n]).
Proof.
  intros Hg Hv. apply valid_name_inv in Hv as (_ & _ & H0 & H1 & H2 & _ & H3).
  simpl. by rewrite Hg, H0, H1, H2, H3.
Qed.

Lemma fs_length_app a b : fs_length (a ++ b) = fs_length a + fs_length b.
Proof.
  unfold fs_length. induction a as [|c a IH]; simpl; [done|]. rewrite IH. lia.
Qed.

Lemma path_arg_accepted p :
  fs_str p = true -> fs_length p < PATH_MAX -> p <> [] -> path_arg p = None.
Proof.
  unfold path_arg, fs_str. intros [-> H]%andb_true_iff Hl Hne.
  apply negb_true_iff in H as ->. simpl.
  apply N.leb_gt in Hl as ->. by destruct p.
Qed.

Lemma path_arg_length p : path_arg p = None -> fs_length p < PATH_MAX.
Proof.
  unfold path_arg. destruct (negb _); [done|]. destruct (existsb _ _); [done|].
  destruct (PATH_MAX <=? fs_length p) eqn:E; [done|]. intros _.
  by apply N.leb_gt.
Qed.

Lemma startswith_sep_app a b :
  a <> [] -> startswith [SEP] (a ++ b) = startswith [SEP] a.
Proof. by destruct a. Qed.

(** The path of an entry of a directory. *)
Lemma os_path_join_entry p n :
  p <> [] -> no_sep n ->
  os_path_join p n = (if endswith [SEP] p then p else p ++ [SEP]) ++ n.
Proof.
  intros Hp Hns. unfold os_path_join. rewrite (startswith_sep_no_sep _ Hns).
  rewrite bool_decide_eq_false_2 by done. simpl.
  destruct (endswith [SEP] p); [done|]. by rewrite <- app_assoc.
Qed.

Lemma fs_length_join p n :
  p <> [] -> no_sep n ->
  fs_length (os_path_join p n) <= fs_length p + 1 + fs_length n.
Proof.
  intros Hp Hns. rewrite (os_path_join_entry _ _ Hp Hns).
  destruct (endswith [SEP] p); rewrite !fs_length_app.
  - lia.
  - change (fs_length [SEP]) with 1. lia.
Qed.

Lemma resolve_child w p cs es n :
  resolve w p = inr cs -> tree_get cs (root w) = Some (Dir es) ->
  valid_name n = true ->
  fs_length (os_path_join p n) < PATH_MAX ->
  resolve w (os_path_join p n) = inr (cs ++ [n]).
Proof.
  intros [Ha Hr]%resolve_inr Hg Hv Hlen.
  pose proof (valid_name_inv n Hv) as (Hne & Hns & _ & _ & _ & Hfs & _).
  pose proof (path_arg_nonempty _ Ha) as Hp.
  apply resolve_inr. split.
  { apply path_arg_accepted; [|done|].
    - rewrite (os_path_join_entry _ _ Hp Hns), fs_str_app, Hfs, andb_true_r.
      destruct (endswith [SEP] p); [by apply path_arg_fs_str|].
      rewrite fs_str_app, (path_arg_fs_str _ Ha). done.
    - rewrite (os_path_join_entry _ _ Hp Hns).
      intros E. by apply app_eq_nil in E as [_ ->]. }
  unfold os_path_join. rewrite (startswith_sep_no_sep _ Hns).
  rewrite bool_decide_eq_false_2 by done. simpl.
  unfold walk in *.
  destruct (endswith [SEP] p) eqn:Hend.
  - apply endswith_sep_inv in Hend as (q & ->).
    rewrite <- app_assoc. simpl.
    assert (Hst : start_dir w (q ++ SEP :: n) = start_dir w (q ++ [SEP])).
    { unfold start_dir. by destruct q. }
    rewrite Hst, str_split_app_sep, (str_split_plain _ Hns), namei_app.
    rewrite str_split_snoc_sep, namei_app in Hr.
    destruct (namei (root w) (start_dir w (q ++ [SEP])) (str_split q SEP))
      as [e|c']; [done|].
    simpl in Hr. destruct (tree_get c' (root w)) as [[d|es']|] eqn:Hc; try done.
    simpl in Hr. injection Hr as ->. by eapply namei_child.
  - assert (Hst : start_dir w (p ++ SEP :: n) = start_dir w p).
    { unfold start_dir. by rewrite startswith_sep_app. }
    rewrite Hst, str_split_app_sep, (str_split_plain _ Hns), namei_app, Hr.
    by eapply namei_child.
Qed.

Lemma os_stat_child w p es n m :
  os_stat w p = inr (Dir es) -> assoc n es = Some m -> valid_name n = true ->
  fs_length (os_path_join p n) < PATH_MAX ->
  os_stat w (os_path_join p n) = inr m.
Proof.
  intros Hs Ha Hv Hlen. unfold os_stat in Hs.
  destruct (resolve w p) as [e|cs] eqn:Hr; [done|].
  destruct (tree_get cs (root w)) as [nd|] eqn:Hg; [|done].
  injection Hs as ->.
  unfold os_stat. rewrite (resolve_child _ _ _ _ _ Hr Hg Hv Hlen).
  rewrite tree_get_app, Hg. simpl. by rewrite Ha.
Qed.

Lemma assoc_of_name {A} n (es : list (str * A)) :
  In n (map fst es) -> exists m, assoc n es = Some m.
Proof.
  induction es as [|[k v] es IH]; simpl; [done|].
  intros [->|Hin].
  - rewrite str_eqb_refl. by eexists.
  - destruct (str_eqb k n); [by eexists|by apply IH].
Qed.

Lemma tail_from_snoc q c : forall acc,
  is_sep c = false -> tail_from acc (q ++ [c]) = tail_from acc q ++ [c].
Proof.
  induction q as [|x q IH]; intros acc Hc; simpl.
  - by rewrite Hc.
  - destruct (is_sep x); by apply IH.
Qed.

Lemma endswith_snoc q c : endswith [c] (q ++ [c]) = true.
Proof.
  unfold endswith. rewrite length_app. simpl.
  replace (length q + 1 - 1)%nat with (length q) by lia.
  rewrite drop_app_length. apply str_eqb_refl.
Qed.

Lemma basename_empty_inv dest :
  os_path_basename dest = [] -> dest = [] \/ endswith [SEP] dest = true.
Proof.
  destruct dest as [|c q _] using rev_ind; [by left|]. intros H. right.
  destruct (is_sep c) eqn:E.
  - unfold is_sep in E. apply N.eqb_eq in E. subst c. apply endswith_snoc.
  - unfold os_path_basename in H. rewrite tail_from_snoc in H by done.
    by destruct (tail_from [] q).
Qed.

Lemma basename_join p n :
  no_sep n -> os_path_basename (os_path_join p n) = n.
Proof.
  intros Hns. unfold os_path_join, os_path_basename.
  rewrite (startswith_sep_no_sep _ Hns).
  destruct (bool_decide (p = [])) eqn:Hp.
  - apply bool_decide_eq_true in Hp as ->. simpl.
    by rewrite tail_from_plain.
  - simpl. destruct (endswith [SEP] p) eqn:Hend.
    + apply endswith_sep_inv in Hend as (q & ->).
      rewrite <- app_assoc. simpl. by apply tail_from_after_sep.
    + by apply tail_from_after_sep.
Qed.

(** ** Opening, storing and copying *)

Lemma raw_open_write_no_basename w dest :
  os_path_basename dest = [] -> exists e, raw_open_write dest w = (w, inl e).
Proof.
  intros H. unfold raw_open_write.
  destruct (path_arg dest) as [f|] eqn:Ea; [eauto|].
  destruct (basename_empty_inv _ H) as [->|He]; [done|]. rewrite He.
  destruct (rstrip_sep dest); [eauto|].
  destruct (walk w _); eauto.
Qed.

Lemma raw_open_write_inv p w w1 r :
  raw_open_write p w = (w1, r) ->
  match r with
  | inl _ => w1 = w
  | inr cs => exists rt, tree_put cs [] (root w) = Some rt /\ w1 = set_root w rt
  end.
Proof.
  unfold raw_open_write. intros H.
  destruct (path_arg p); [by injection H as <- <-|].
  destruct (endswith [SEP] p).
  { destruct (rstrip_sep p); [by injection H as <- <-|].
    destruct (walk w _); by injection H as <- <-. }
  destruct (walk w p) as [e|cs]; [by injection H as <- <-|].
  destruct (tree_get cs (root w)) as [[d|es]|].
  - destruct (tree_put cs [] (root w)) as [rt|] eqn:E;
      injection H as <- <-; [by exists rt|done].
  - by injection H as <- <-.
  - destruct (tree_put cs [] (root w)) as [rt|] eqn:E;
      injection H as <- <-; [by exists rt|done].
Qed.

Lemma same_dirs_sym w w' : same_dirs w w' -> same_dirs w' w.
Proof.
  intros (H1 & H2 & H3 & H4).
  split; [congruence|]. split; [congruence|]. split; [congruence|].
  intros c. by rewrite H4.
Qed.

Lemma same_dirs_isdir w w' q :
  same_dirs w w' -> os_path_isdir w' q = os_path_isdir w q.
Proof.
  assert (Hone : forall a b, same_dirs a b ->
            os_path_isdir a q = true -> os_path_isdir b q = true).
  { intros a b Hs. unfold os_path_isdir, os_stat.
    destruct (resolve a q) as [e|cs] eqn:Er; [done|].
    rewrite (same_dirs_resolve _ _ _ _ Hs Er).
    destruct Hs as (_ & _ & _ & Hd). specialize (Hd cs).
    destruct (tree_get cs (root a)) as [[d|es]|]; try done.
    simpl in Hd. by destruct (tree_get cs (root b)) as [[d'|es']|]. }
  intros Hs. apply eq_true_iff_eq. split; apply Hone; [by apply same_dirs_sym|done].
Qed.

(** Opening for writing truncates the file and touches nothing else. *)
Lemma open_write_truncates w p cs :
  resolve w p = inr cs -> is_dir_opt (tree_get cs (root w)) = false ->
  exists w1,
    raw_open_write p w = (w1, inr cs) /\
    same_dirs w w1 /\
    tree_get cs (root w1) = Some (File []) /\
    (forall c d, c <> cs -> tree_get c (root w) = Some (File d) ->
                 tree_get c (root w1) = Some (File d)).
Proof.
  intros Hr Hnd. destruct (raw_open_write_ok _ _ _ Hr Hnd) as (r1 & Hp & Ho).
  exists (set_root w r1). split; [done|]. split; [by eapply same_dirs_put|].
  split; [by eapply tree_get_put_same|].
  intros c d Hne Hc. simpl. by eapply tree_put_keeps_files.
Qed.

(** Storing into the open file replaces its content and touches nothing
    else. *)
Lemma file_store_open w cs b0 b :
  tree_get cs (root w) = Some (File b0) -> cs <> [] ->
  exists w2,
    file_store cs b w = (w2, inr tt) /\
    same_dirs w w2 /\
    tree_get cs (root w2) = Some (File b) /\
    (forall c d, c <> cs -> tree_get c (root w) = Some (File d) ->
                 tree_get c (root w2) = Some (File d)).
Proof.
  intros Hg Hne.
  assert (exists r, tree_put cs b (root w) = Some r) as [r Hp].
  { destruct cs as [|x cs _] using rev_ind; [done|].
    apply tree_put_child.
    pose proof (tree_get_app cs [x] (root w)) as Ha. rewrite Hg in Ha.
    by destruct (tree_get cs (root w)) as [[d|es]|]. }
  assert (Hnd : is_dir_opt (tree_get cs (root w)) = false) by by rewrite Hg.
  exists (set_root w r). split; [unfold file_store; by rewrite Hp|].
  split; [by eapply same_dirs_put|].
  split; [by eapply tree_get_put_same|].
  intros c d Hc Hd. simpl. by eapply tree_put_keeps_files.
Qed.

Lemma resolve_nonroot_file w p cs b :
  resolve w p = inr cs -> tree_get cs (root w) = Some (File b) -> cs <> [].
Proof.
  intros [_ Hr]%resolve_inr Hg ->. simpl in Hg. injection Hg as Hroot.
  unfold walk in Hr.
  destruct (str_split p SEP) as [|c l] eqn:E;
    [by apply str_split_nonempty in E|].
  simpl in Hr.
  destruct (tree_get (start_dir w p) (root w)) as [[d|es]|] eqn:Eg;
    try done.
  rewrite Hroot in Eg. by destruct (start_dir w p).
Qed.

Lemma os_stat_same_dirs_file w w' q cs d :
  same_dirs w w' -> resolve w q = inr cs ->
  tree_get cs (root w') = Some (File d) -> os_stat w' q = inr (File d).
Proof.
  intros Hs Hr Hg. apply os_stat_file. exists cs. split; [|done].
  by eapply same_dirs_resolve.
Qed.

Lemma raw_open_read_state p w : fst (raw_open_read p w) = w.
Proof. unfold raw_open_read. by repeat case_match. Qed.

Lemma read_file_state p enc bin w : fst (read_file p enc bin w) = w.
Proof. by rewrite read_file_eq. Qed.

Lemma read_file_of_file w p enc b :
  os_stat w p = inr (File b) ->
  read_file p enc false w
  = (w, match str_arg enc with
        | Some e => inl e
        | None =>
            match lookup_codec (lib w) enc with
            | None => inl LookupError
            | Some cd =>
                match decode cd b with
                | Some t => inr (Text (universal_newlines t))
                | None => inl UnicodeDecodeError
                end
            end
        end).
Proof. intros Hs. by rewrite read_file_eq, Hs. Qed.

Lemma same_file_resolved w a b cs n :
  resolve w a = inr cs -> resolve w b = inr cs ->
  tree_get cs (root w) = Some n -> same_file w a b = true.
Proof.
  intros Ha Hb Hn. unfold same_file, os_stat.
  rewrite Ha, Hb, Hn. by rewrite bool_decide_eq_true_2.
Qed.

Lemma resolve_fs_str w p cs : resolve w p = inr cs -> fs_str p = true.
Proof. intros [H _]%resolve_inr. by apply path_arg_fs_str. Qed.

Lemma shutil_copyfile_frame w src dst b :
  os_stat w src = inr (File b) ->
  writable w dst = true ->
  resolve w src <> resolve w dst ->
  exists w', shutil_copyfile src dst w = (w', inr tt) /\
             os_stat w' dst = inr (File b) /\ same_dirs w w' /\
             (forall q d, os_stat w q = inr (File d) ->
                          resolve w q <> resolve w dst ->
                          os_stat w' q = inr (File d)).
Proof.
  intros Hs Hw Hne.
  pose proof (os_stat_fs_str _ _ _ Hs) as Fs.
  apply os_stat_file in Hs as (cs & Hrs & Hgs).
  apply writable_inv in Hw as (cd & Hrd & Hnd).
  pose proof (resolve_fs_str _ _ _ Hrd) as Fd.
  assert (Hcd : cs <> cd) by congruence.
  destruct (open_write_truncates w dst cd Hrd Hnd) as (w1 & Ho & S1 & G1 & K1).
  assert (Hnil : cd <> []).
  { eapply (resolve_nonroot_file w1 dst); [by eapply same_dirs_resolve|done]. }
  destruct (file_store_open w1 cd [] b G1 Hnil) as (w2 & Hst & S2 & G2 & K2).
  assert (S12 : same_dirs w w2) by by eapply same_dirs_trans.
  exists w2. split; [|split; [|split; [done|]]].
  - rewrite (shutil_copyfile_accepted _ _ _ Fs Fd).
    destruct (same_file w src dst) eqn:Esf.
    { by apply same_file_resolve in Esf. }
    unfold copyfile_data, bind, gets.
    rewrite (raw_open_read_file _ _ _ _ Hrs Hgs), Ho.
    unfold file_data. by rewrite (K1 cs b Hcd Hgs).
  - by eapply os_stat_same_dirs_file.
  - intros q d Hq Hqne. apply os_stat_file in Hq as (cq & Hrq & Hgq).
    eapply os_stat_same_dirs_file; [exact S12|exact Hrq|].
    assert (cq <> cd) by congruence. auto.
Qed.

Lemma shutil_copyfile_dir_source w src dst es :
  os_stat w src = inr (Dir es) -> fs_str dst = true ->
  shutil_copyfile src dst w = (w, inl SameFileError) \/
  shutil_copyfile src dst w = (w, inl (IsADirectoryError src)).
Proof.
  intros Hs Fd.
  rewrite (shutil_copyfile_accepted _ _ _ (os_stat_fs_str _ _ _ Hs) Fd).
  destruct (same_file w src dst); [by left|right].
  unfold copyfile_data, bind. by rewrite (raw_open_read_dir _ _ _ Hs).
Qed.

Lemma copyfile_data_error w src dst w' e :
  copyfile_data src dst w = (w', inl e) -> w' = w.
Proof.
  unfold copyfile_data, bind, gets. intros H.
  pose proof (raw_open_read_state src w) as Hst.
  destruct (raw_open_read src w) as [w0 [e0|cs]]; simpl in Hst; subst w0;
    [by injection H as <- _|].
  destruct (raw_open_write dst w) as [w1 r] eqn:Ho.
  apply raw_open_write_inv in Ho.
  destruct r as [e1|cd].
  - subst w1. destruct e1; try by injection H as <- _.
    destruct (os_path_exists w dst); by injection H as <- _.
  - destruct Ho as (rt & Hput & ->). exfalso.
    unfold file_store in H. cbn [root set_root] in H.
    destruct (tree_put_again cd [] (file_data (set_root w rt) cs) _ _ Hput)
      as (n'' & Hn).
    by rewrite Hn in H.
Qed.

Lemma shutil_copyfile_ok_inv w src dst w' :
  shutil_copyfile src dst w = (w', inr tt) ->
  exists w1 cd, raw_open_write dst w = (w1, inr cd).
Proof.
  intros H.
  destruct (fs_str src) eqn:Fs; [destruct (fs_str dst) eqn:Fd|].
  - rewrite (shutil_copyfile_accepted _ _ _ Fs Fd) in H.
    destruct (same_file w src dst); [done|].
    unfold copyfile_data, bind in H.
    pose proof (raw_open_read_state src w) as Hst.
    destruct (raw_open_read src w) as [w0 [e0|cs]]; simpl in Hst; subst w0;
      [done|].
    destruct (raw_open_write dst w) as [w1 [e1|cd]]; [|by eauto].
    destruct e1; try done. by destruct (os_path_exists w1 dst).
  - destruct (shutil_copyfile_refused w src dst) as (e' & He & _); [by right|].
    by rewrite He in H.
  - destruct (shutil_copyfile_refused w src dst) as (e' & He & _); [by left|].
    by rewrite He in H.
Qed.

Lemma shutil_copyfile_error w src dst w' e :
  shutil_copyfile src dst w = (w', inl e) -> w' = w.
Proof.
  intros H.
  destruct (fs_str src) eqn:Fs; [destruct (fs_str dst) eqn:Fd|].
  - rewrite (shutil_copyfile_accepted _ _ _ Fs Fd) in H.
    destruct (same_file w src dst); [by injection H as <- _|].
    by eapply copyfile_data_error.
  - destruct (shutil_copyfile_refused w src dst) as (e' & He & _); [by right|].
    rewrite He in H. by injection H as <- _.
  - destruct (shutil_copyfile_refused w src dst) as (e' & He & _); [by left|].
    rewrite He in H. by injection H as <- _.
Qed.

(** The run of [convert_file_charset] up to the point where both files
    are open: the destination has been truncated. *)
Lemma convert_file_charset_opened w src dst e1 e2 c1 b :
  os_stat w src = inr (File b) ->
  writable w dst = true ->
  resolve w src <> resolve w dst ->
  lookup_codec (lib w) e1 = Some c1 ->
  str_arg e2 = None ->
  exists w1 cd,
    same_dirs w w1 /\
    os_stat w1 dst = inr (File []) /\ os_stat w1 src = inr (File b) /\
    tree_get cd (root w1) = Some (File []) /\ cd <> [] /\
    resolve w dst = inr cd /\
    (forall c d, c <> cd -> tree_get c (root w) = Some (File d) ->
                 tree_get c (root w1) = Some (File d)) /\
    convert_file_charset src dst e1 e2 w
    = match lookup_codec (lib w) e2 with
      | None => (w1, inl LookupError)
      | Some c2 =>
          match decode c1 b with
          | None => (w1, inl UnicodeDecodeError)
          | Some t =>
              match encode c2 (universal_newlines t) with
              | None => (w1, inl UnicodeEncodeError)
              | Some b' => file_store cd b' w1
              end
          end
      end.
Proof.
  intros Hs Hw Hne H1 Ha2.
  apply os_stat_file in Hs as (cs & Hrs & Hgs).
  apply writable_inv in Hw as (cd & Hrd & Hnd).
  assert (Hcd : cs <> cd) by congruence.
  destruct (open_write_truncates w dst cd Hrd Hnd) as (w1 & Ho & S1 & G1 & K1).
  assert (Hnil : cd <> []).
  { eapply (resolve_nonroot_file w1 dst); [by eapply same_dirs_resolve|done]. }
  exists w1, cd. split; [done|].
  split; [by eapply os_stat_same_dirs_file|].
  split; [eapply os_stat_same_dirs_file; eauto|].
  split; [done|]. split; [done|]. split; [done|]. split; [done|].
  unfold convert_file_charset.
  rewrite (bind_ok _ _ _ _ _ (builtin_open_read_text _ _ _ _ _ _ Hrs Hgs H1)).
  unfold bind at 1. rewrite builtin_open_text, Ha2, Ho.
  destruct S1 as (_ & -> & _).
  destruct (lookup_codec (lib w) e2) as [c2|]; [|done].
  unfold bind, file_read, file_write, file_data. cbn [fo_path fo_codec].
  rewrite (K1 cs b Hcd Hgs).
  destruct (decode c1 b) as [t|]; [|done].
  by destruct (encode c2 (universal_newlines t)).
Qed.

Lemma convert_file_charset_run w src dst e1 e2 c1 c2 b t b' :
  os_stat w src = inr (File b) ->
  writable w dst = true ->
  resolve w src <> resolve w dst ->
  lookup_codec (lib w) e1 = Some c1 ->
  lookup_codec (lib w) e2 = Some c2 ->
  decode c1 b = Some t ->
  encode c2 (universal_newlines t) = Some b' ->
  exists w', convert_file_charset src dst e1 e2 w = (w', inr tt) /\
             os_stat w' dst = inr (File b') /\ same_dirs w w' /\
             (forall q d, os_stat w q = inr (File d) ->
                          resolve w q <> resolve w dst ->
                          os_stat w' q = inr (File d)).
Proof.
  intros Hs Hw Hne H1 H2 Hd He.
  destruct (convert_file_charset_opened w src dst e1 e2 c1 b Hs Hw Hne H1
              (lookup_codec_arg _ _ _ H2))
    as (w1 & cd & S1 & _ & _ & G1 & Hnil & Hrd & K1 & Hrun).
  rewrite H2, Hd, He in Hrun.
  destruct (file_store_open w1 cd [] b' G1 Hnil) as (w2 & Hst & S2 & G2 & K2).
  assert (S12 : same_dirs w w2) by by eapply same_dirs_trans.
  exists w2. split; [by rewrite Hrun|]. split; [|split; [done|]].
  - by eapply os_stat_same_dirs_file.
  - intros q d Hq Hqne. apply os_stat_file in Hq as (cq & Hrq & Hgq).
    eapply os_stat_same_dirs_file; [exact S12|exact Hrq|].
    assert (Hc : cq <> cd) by congruence. auto.
Qed.

(** ** Filtering a list *)

Lemma filter_idem {A} (f : A -> bool) l :
  List.filter f (List.filter f l) = List.filter f l.
Proof.
  rewrite filter_filter. apply List.filter_ext. intros x. by destruct (f x).
Qed.

Lemma filter_negb_filter {A} (f : A -> bool) l :
  List.filter (fun x => negb (f x)) (List.filter f l) = [].
Proof.
  rewrite filter_filter. induction l as [|x l IH]; simpl; [done|].
  by destruct (f x).
Qed.

Lemma filter_split_length {A} (f : A -> bool) l :
  (length (List.filter f l) + length (List.filter (fun x => negb (f x)) l)
   = length l)%nat.
Proof.
  induction l as [|x l IH]; simpl; [done|]. destruct (f x); simpl; lia.
Qed.

(** * Further properties of the module *)

(** ** [get_file_list] *)

(** X1: in a directory whose entries bear proper names, and whose path
    leaves room for a name below the limit on the length of a path, every
    path [get_file_list] returns exists, and its base name is an entry of
    the directory that begins with [suffix] and, after it, ends with
    [prefix]; there are at most as many paths as the directory has
    entries. *)
Theorem get_file_list_paths_exist w src_dir suffix prefix es :
  no_magic src_dir -> no_magic suffix -> no_magic prefix ->
  no_sep suffix -> no_sep prefix ->
  os_scandir w (listed_dir src_dir) = Some es ->
  forallb (fun e => valid_name (fst e)) es = true ->
  fs_length (listed_dir src_dir) + 1 + NAME_MAX < PATH_MAX ->
  exists paths,
    get_file_list src_dir suffix prefix w = (w, inr paths) /\
    Forall (fun p => os_path_exists w p = true /\
                     In (os_path_basename p) (map fst es) /\
                     affix_match suffix prefix (os_path_basename p) = true)
           paths /\
    (length paths <= length es)%nat.
Proof.
  intros Hd Ha Hb Hsa Hsb Hscan Hval Hroom.
  unfold os_scandir in Hscan.
  destruct (os_stat w (listed_dir src_dir)) as [e|[d|es']] eqn:Hs; try done.
  injection Hscan as ->.
  eexists. split.
  { unfold get_file_list.
    rewrite (glob_glob_affixes w _ _ _ Hd Ha Hb Hsa Hsb).
    unfold os_scandir. rewrite Hs. done. }
  split.
  - apply List.Forall_forall. intros p Hin.
    apply in_map_iff in Hin as (n & <- & Hn).
    apply filter_In in Hn as (Hn & Hf).
    apply andb_true_iff in Hf as (_ & Hf).
    assert (Hv : valid_name n = true).
    { apply in_map_iff in Hn as ([k v] & <- & Hkv).
      rewrite forallb_forall in Hval. by apply (Hval (k, v)). }
    pose proof (valid_name_inv n Hv) as (_ & Hns & _ & _ & _ & _ & Hlen).
    rewrite (basename_join _ _ Hns).
    split; [|done].
    destruct (assoc_of_name n es Hn) as (m & Hm).
    unfold os_path_exists. rewrite (os_stat_child _ _ _ _ _ Hs Hm Hv); [done|].
    pose proof (fs_length_join (listed_dir src_dir) n
                  (listed_dir_nonempty src_dir) Hns).
    apply N.ltb_ge in Hlen. lia.
  - rewrite length_map. etransitivity; [apply List.filter_length_le|].
    by rewrite length_map.
Qed.

Lemma get_file_list_paths_exist_witness :
  exists paths,
    get_file_list (py "/") (py "") (py "") demo = (demo, inr paths) /\
    Forall (fun p => os_path_exists demo p = true) paths.
Proof.
  destruct (get_file_list_paths_exist demo (py "/") (py "") (py "")
              [ (py "tmp",
                 Dir [ (py "a.txt", File (py "a" ++ [CR; LF] ++ py "b"));
                       (py "b.txt",
                        File (py "a" ++ [LF] ++ py "b" ++ [LF] ++ py "c"));
                       (py "kana.txt", File [239; 189; 177; 239; 189; 178]);
                       (py "yen.txt", File [194; 165]);
                       (py "data.json", File demo_json) ]);
                (py "out", Dir []);
                (py "d",
                 Dir [ (py "ab", File []); (py ".x", File []);
                       (py "a", File []) ]) ])
    as (paths & Hrun & Hall & _);
    [repeat constructor .. | reflexivity | reflexivity | vm_compute; reflexivity |].
  exists paths. split; [exact Hrun|].
  eapply Forall_impl; [exact Hall|]. intros p H. exact (proj1 H).
Defined.

(** X2: with the default (empty) [suffix] and [prefix], and a directory
    path the interpreter accepts as a path, [get_file_list] returns
    every entry of the directory whose name does not begin with a dot,
    files and sub-directories alike, in directory order; with an empty
    [src_dir] too, the directory listed is the root directory, not the
    current one. *)
Theorem get_file_list_defaults w src_dir :
  no_magic src_dir -> fs_str src_dir = true ->
  get_file_list src_dir [] [] w
  = (w, inr match os_scandir w (listed_dir src_dir) with
            | Some es =>
                map (os_path_join (listed_dir src_dir))
                  (List.filter (fun n => negb (_ishidden n)) (map fst es))
            | None => []
            end) /\
  (src_dir = [] -> listed_dir src_dir = [SEP]).
Proof.
  intros Hd Hf. split; [|by intros ->].
  rewrite <- fs_str_listed_dir in Hf.
  unfold get_file_list.
  rewrite (glob_glob_affixes w src_dir [] [] Hd);
    [|constructor|constructor|constructor|constructor].
  assert (Hfil : forall l : list str,
            List.filter (fun n => (_ishidden [] || negb (_ishidden n))
                                  && affix_match [] [] n) l
            = List.filter (fun n => negb (_ishidden n)) l).
  { intros l. apply List.filter_ext. intros n. simpl.
    assert (H : affix_match [] [] n = true).
    { apply affix_match_spec. exists n. by rewrite app_nil_r. }
    by rewrite H, andb_true_r. }
  destruct (os_stat_accepted w _ Hf) as [[e ->]|[n ->]];
    destruct (os_scandir w (listed_dir src_dir)); by rewrite ?Hfil.
Qed.

Lemma get_file_list_defaults_witness :
  get_file_list (py "/d") [] [] demo = (demo, inr [py "/d/ab"; py "/d/a"]) /\
  get_file_list [] [] [] demo
  = (demo, inr [py "/tmp"; py "/out"; py "/d"]).
Proof.
  split.
  - destruct (get_file_list_defaults demo (py "/d")) as (H & _);
      [repeat constructor|reflexivity|].
    rewrite H. reflexivity.
  - destruct (get_file_list_defaults demo []) as (H & _);
      [constructor|reflexivity|].
    rewrite H. reflexivity.
Defined.

(** ** [read_file] and the readers built on it *)



(** X4: the readers only read: whatever they return or raise,
    [read_file], [read_file_lines], [read_json_file] and [get_file_list]
    leave the file system and the list objects as they were. *)
Theorem readers_leave_state w filepath encoding is_binary src_dir suffix prefix :
  fst (read_file filepath encoding is_binary w) = w /\
  fst (read_file_lines filepath encoding w) = w /\
  fst (read_json_file filepath encoding w) = w /\
  fst (get_file_list src_dir suffix prefix w) = w.
Proof.
  split; [apply read_file_state|].
  pose proof (read_file_state filepath encoding false w) as H.
  split; [|split; [|done]].
  - unfold read_file_lines, bind.
    destruct (read_file filepath encoding false w) as [w1 [e|[s|b]]];
      simpl in *; by subst.
  - unfold read_json_file, bind.
    destruct (read_file filepath encoding false w) as [w1 [e|c]];
      simpl in *; subst; [done|].
    unfold json_loads_content. by repeat case_match.
Qed.

(** X5: the line and JSON readers fail exactly as [read_file] does:
    every error of [read_file] comes out of [read_file_lines] and
    [read_json_file] unchanged, and [read_file_lines] adds none of its
    own: what [read_file] returns in text mode is a text, so the split
    always applies. *)
Theorem readers_fail_like_read_file w filepath encoding :
  (forall w' e, read_file filepath encoding false w = (w', inl e) ->
     read_file_lines filepath encoding w = (w', inl e) /\
     read_json_file filepath encoding w = (w', inl e)) /\
  (forall w' c, read_file filepath encoding false w = (w', inr c) ->
     exists s, c = Text s /\
               read_file_lines filepath encoding w = (w', inr (str_split s LF))).
Proof.
  split.
  - intros w' e H. unfold read_file_lines, read_json_file, bind. by rewrite H.
  - intros w' c H. unfold read_file_lines, bind. rewrite H.
    rewrite read_file_eq in H. injection H as <- H.
    destruct (str_arg encoding); [done|].
    destruct (os_stat w filepath) as [f|[b|es]]; [done| |done].
    destruct (lookup_codec (lib w) encoding) as [cd|]; [|done].
    destruct (decode cd b) as [t|]; [|done].
    injection H as <-. by eexists.
Qed.

Lemma readers_fail_like_read_file_witness :
  read_file_lines (py "/tmp/nothing") (py "utf-8") demo
  = (demo, inl (FileNotFoundError (py "/tmp/nothing"))) /\
  read_json_file (py "/tmp/nothing") (py "utf-8") demo
  = (demo, inl (FileNotFoundError (py "/tmp/nothing"))).
Proof.
  apply (proj1 (readers_fail_like_read_file demo (py "/tmp/nothing") (py "utf-8"))).
  reflexivity.
Defined.

(** X6: [read_file_lines] returns one line more than the text holds line
    ends, so never an empty list: an empty text gives one empty line, and
    a text that ends with a line end gives a last line that is empty. *)
Theorem read_file_lines_count w filepath encoding cd b t :
  os_stat w filepath = inr (File b) ->
  lookup_codec (lib w) encoding = Some cd ->
  decode cd b = Some t ->
  exists lines,
    read_file_lines filepath encoding w = (w, inr lines) /\
    length lines
    = S (length (List.filter (fun c => c =? LF) (universal_newlines t))) /\
    (t = [] -> lines = [[]]) /\
    (forall t', universal_newlines t = t' ++ [LF] ->
                lines = str_split t' LF ++ [[]]).
Proof.
  intros Hs Hc Hd. exists (str_split (universal_newlines t) LF).
  split; [|split; [|split]].
  - unfold read_file_lines, bind.
    by rewrite (read_file_text _ _ _ _ _ Hs Hc), Hd.
  - apply str_split_length.
  - by intros ->.
  - intros t' ->. apply str_split_snoc_sep.
Qed.

Lemma read_file_lines_count_witness :
  exists lines,
    read_file_lines (py "/tmp/b.txt") (py "utf-8") demo = (demo, inr lines) /\
    length lines = 3%nat.
Proof.
  destruct (read_file_lines_count demo (py "/tmp/b.txt") (py "utf-8")
              (Codec Utf8.decode Utf8.encode)
              (py "a" ++ [LF] ++ py "b" ++ [LF] ++ py "c")
              (py "a" ++ [LF] ++ py "b" ++ [LF] ++ py "c"))
    as (lines & Hrun & Hlen & _); [reflexivity ..|].
  exists lines. split; [exact Hrun|exact Hlen].
Defined.

(** ** [copy_file] *)

(** X7: a destination whose base name is empty (the empty path, or a path
    written with a trailing slash) is used as the target itself, and the
    copy always fails there: [copy_file] raises and changes nothing. *)
Theorem copy_file_no_basename w src dest :
  os_path_basename dest = [] ->
  exists e, copy_file src dest w = (w, inl e).
Proof.
  intros Hb. rewrite copy_file_target. unfold copy_target. rewrite Hb.
  destruct (shutil_copyfile src dest w) as [w' [e|[]]] eqn:E.
  - apply shutil_copyfile_error in E as ->. by exists e.
  - apply shutil_copyfile_ok_inv in E as (w1 & cd & Ho).
    destruct (raw_open_write_no_basename w dest Hb) as (e & He). congruence.
Qed.

Lemma copy_file_no_basename_witness :
  exists e, copy_file (py "/tmp/a.txt") (py "/out/") demo = (demo, inl e).
Proof.
  apply (copy_file_no_basename demo (py "/tmp/a.txt") (py "/out/")).
  reflexivity.
Defined.

(** X8: [copy_file] of a file into the directory it is in aims at the
    file itself: it raises [SameFileError] and changes nothing. *)
Theorem copy_file_onto_itself w src dest b :
  os_path_basename dest <> [] ->
  os_stat w src = inr (File b) ->
  resolve w (dest ++ SEP :: os_path_basename src) = resolve w src ->
  copy_file src dest w = (w, inl SameFileError).
Proof.
  intros Hb Hs Hr. rewrite copy_file_target, (copy_target_join _ _ Hb).
  pose proof (os_stat_fs_str _ _ _ Hs) as Fs.
  apply os_stat_file in Hs as (cs & Hrs & Hgs).
  rewrite Hrs in Hr.
  rewrite (shutil_copyfile_accepted _ _ _ Fs (resolve_fs_str _ _ _ Hr)).
  by rewrite (same_file_resolved w src _ cs (File b)).
Qed.

Lemma copy_file_onto_itself_witness :
  copy_file (py "/tmp/a.txt") (py "/tmp") demo = (demo, inl SameFileError).
Proof.
  apply (copy_file_onto_itself demo (py "/tmp/a.txt") (py "/tmp")
           (py "a" ++ [CR; LF] ++ py "b")).
  - vm_compute. discriminate.
  - reflexivity.
  - reflexivity.
Defined.

(** X9: [copy_file] does not copy directories: when the source is a
    directory it raises [IsADirectoryError] for the source or
    [SameFileError] ([UnicodeEncodeError] or [ValueError] for a [dest]
    the interpreter refuses as a path), and nothing is created or
    changed. *)
Theorem copy_file_directory_source w src dest es :
  os_stat w src = inr (Dir es) ->
  (fs_str dest = true ->
   copy_file src dest w = (w, inl SameFileError) \/
   copy_file src dest w = (w, inl (IsADirectoryError src))) /\
  (fs_str dest = false ->
   exists e, copy_file src dest w = (w, inl e) /\
             (e = UnicodeEncodeError \/ e = ValueError)).
Proof.
  intros Hs. rewrite copy_file_target. split; intros Hd.
  - eapply shutil_copyfile_dir_source; [done|].
    apply fs_str_copy_target_accepted; [|done]. by eapply os_stat_fs_str.
  - apply shutil_copyfile_refused. right.
    by apply fs_str_copy_target_refused.
Qed.

Lemma copy_file_directory_source_witness :
  copy_file (py "/d") (py "/out") demo = (demo, inl SameFileError) \/
  copy_file (py "/d") (py "/out") demo = (demo, inl (IsADirectoryError (py "/d"))).
Proof.
  apply (copy_file_directory_source demo (py "/d") (py "/out")
           [ (py "ab", File []); (py ".x", File []); (py "a", File []) ]);
    reflexivity.
Defined.

(** X10: [copy_file] is all or nothing: whenever it raises, whatever the
    error, the file system and the list objects are as before the call
    (no target is created or emptied). *)
Theorem copy_file_error_keeps_state w src dest e :
  snd (copy_file src dest w) = inl e -> fst (copy_file src dest w) = w.
Proof.
  unfold copy_file. intros H. eapply shutil_copyfile_error.
  rewrite <- H. apply surjective_pairing.
Qed.

Lemma copy_file_error_keeps_state_witness :
  fst (copy_file (py "/tmp/a.txt") (py "/nowhere") demo) = demo.
Proof.
  apply (copy_file_error_keeps_state demo (py "/tmp/a.txt") (py "/nowhere")
           (FileNotFoundError (py "/nowhere/a.txt"))).
  reflexivity.
Defined.

(** X11: what a successful [copy_file] leaves alone: the source and every
    other regular file than the target keep their content, the same paths
    are directories before and after, and the list objects are
    untouched. *)
Theorem copy_file_frame w src dest b :
  os_path_basename dest <> [] ->
  os_stat w src = inr (File b) ->
  writable w (dest ++ SEP :: os_path_basename src) = true ->
  resolve w src <> resolve w (dest ++ SEP :: os_path_basename src) ->
  exists w',
    copy_file src dest w = (w', inr tt) /\
    os_stat w' src = inr (File b) /\
    (forall q d, os_stat w q = inr (File d) ->
                 resolve w q <> resolve w (dest ++ SEP :: os_path_basename src) ->
                 os_stat w' q = inr (File d)) /\
    (forall q, os_path_isdir w' q = os_path_isdir w q) /\
    heap w' = heap w.
Proof.
  intros Hb Hs Hw Hne. rewrite copy_file_target, (copy_target_join _ _ Hb).
  destruct (shutil_copyfile_frame w src _ b Hs Hw Hne)
    as (w' & Hrun & _ & Hsd & Hfr).
  exists w'. split; [done|]. split; [by apply Hfr|]. split; [done|].
  split; [intros q; by apply same_dirs_isdir|]. by destruct Hsd as (_ & _ & ? & _).
Qed.

Lemma copy_file_frame_witness :
  exists w',
    copy_file (py "/tmp/a.txt") (py "/out") demo = (w', inr tt) /\
    os_stat w' (py "/tmp/a.txt") = inr (File (py "a" ++ [CR; LF] ++ py "b")) /\
    os_path_isdir w' (py "/out") = true.
Proof.
  destruct (copy_file_frame demo (py "/tmp/a.txt") (py "/out")
              (py "a" ++ [CR; LF] ++ py "b"))
    as (w' & Hrun & Hsrc & _ & Hdir & _);
    [vm_compute; discriminate | reflexivity | reflexivity
    | vm_compute; discriminate |].
  exists w'. split; [exact Hrun|]. split; [exact Hsrc|].
  rewrite Hdir. reflexivity.
Defined.

(** X12: copy, then read: after a successful [copy_file], [read_file] on
    the target gives what [read_file] gave on the source before the copy
    (the same text, or the same error), and the source still reads the
    same. *)
Theorem copy_file_then_read w src dest b encoding :
  os_path_basename dest <> [] ->
  os_stat w src = inr (File b) ->
  writable w (dest ++ SEP :: os_path_basename src) = true ->
  resolve w src <> resolve w (dest ++ SEP :: os_path_basename src) ->
  exists w',
    copy_file src dest w = (w', inr tt) /\
    snd (read_file (dest ++ SEP :: os_path_basename src) encoding false w')
    = snd (read_file src encoding false w) /\
    snd (read_file src encoding false w')
    = snd (read_file src encoding false w).
Proof.
  intros Hb Hs Hw Hne. rewrite copy_file_target, (copy_target_join _ _ Hb).
  destruct (shutil_copyfile_frame w src _ b Hs Hw Hne)
    as (w' & Hrun & Hdst & Hsd & Hfr).
  exists w'. split; [done|].
  pose proof (Hfr src b Hs Hne) as Hsrc.
  rewrite (read_file_of_file _ _ _ _ Hdst), (read_file_of_file _ _ _ _ Hsrc),
    (read_file_of_file _ _ _ _ Hs).
  destruct Hsd as (_ & -> & _). done.
Qed.

Lemma copy_file_then_read_witness :
  exists w',
    copy_file (py "/tmp/a.txt") (py "/out") demo = (w', inr tt) /\
    snd (read_file (py "/out/a.txt") (py "utf-8") false w')
    = inr (Text (py "a" ++ [LF] ++ py "b")).
Proof.
  destruct (copy_file_then_read demo (py "/tmp/a.txt") (py "/out")
              (py "a" ++ [CR; LF] ++ py "b") (py "utf-8"))
    as (w' & Hrun & Hread & _);
    [vm_compute; discriminate | reflexivity | reflexivity
    | vm_compute; discriminate |].
  exists w'. split; [exact Hrun|].
  etransitivity; [exact Hread|]. vm_compute. reflexivity.
Defined.

(** ** [convert_file_charset] *)

(** X13: the failures of [convert_file_charset] that leave the
    destination untouched.  When the source cannot be opened, it stops
    before it looks at the destination: a source encoding name that
    [open] refuses ([UnicodeEncodeError] or [ValueError]), a source that
    [os.stat] fails on (the error of that failure: [FileNotFoundError]
    when the lookup ends in ENOENT, [NotADirectoryError] when a name on
    the way is a regular file), a directory ([IsADirectoryError]) or an
    unknown source encoding ([LookupError]) leave everything as it was.
    So does a destination encoding name that [open] refuses: it is
    raised before the destination is opened. *)
Theorem convert_file_charset_source_errors w src dst e1 e2 :
  (forall e, str_arg e1 = Some e ->
   convert_file_charset src dst e1 e2 w = (w, inl e)) /\
  (forall f, str_arg e1 = None -> os_stat w src = inl f ->
   convert_file_charset src dst e1 e2 w = (w, inl (path_error f src))) /\
  (forall es, str_arg e1 = None -> os_stat w src = inr (Dir es) ->
   convert_file_charset src dst e1 e2 w = (w, inl (IsADirectoryError src))) /\
  (forall b, str_arg e1 = None -> os_stat w src = inr (File b) ->
   lookup_codec (lib w) e1 = None ->
   convert_file_charset src dst e1 e2 w = (w, inl LookupError)) /\
  (forall b c1 e, os_stat w src = inr (File b) ->
   lookup_codec (lib w) e1 = Some c1 -> str_arg e2 = Some e ->
   convert_file_charset src dst e1 e2 w = (w, inl e)).
Proof.
  split; [|split; [|split; [|split]]].
  - intros e Ha. unfold convert_file_charset.
    erewrite bind_err; [done|]. by rewrite builtin_open_text, Ha.
  - intros f Ha Hs. unfold convert_file_charset.
    erewrite bind_err; [done|].
    by rewrite builtin_open_text, Ha, (raw_open_read_fail _ _ _ Hs).
  - intros es Ha Hs. unfold convert_file_charset.
    erewrite bind_err; [done|].
    by rewrite builtin_open_text, Ha, (raw_open_read_dir _ _ _ Hs).
  - intros b Ha Hs Hc. apply os_stat_file in Hs as (cs & Hrs & Hgs).
    unfold convert_file_charset.
    erewrite bind_err; [done|].
    by rewrite builtin_open_text, Ha, (raw_open_read_file _ _ _ _ Hrs Hgs), Hc.
  - intros b c1 e Hs Hc Ha. apply os_stat_file in Hs as (cs & Hrs & Hgs).
    unfold convert_file_charset.
    rewrite (bind_ok _ _ _ _ _ (builtin_open_read_text _ _ _ _ _ _ Hrs Hgs Hc)).
    erewrite bind_err; [done|]. by rewrite builtin_open_text, Ha.
Qed.

Lemma convert_file_charset_source_errors_witness :
  convert_file_charset (py "/tmp/nothing") (py "/out/old.txt")
    (py "utf-8") (py "shift_jis") demo_err
  = (demo_err, inl (FileNotFoundError (py "/tmp/nothing"))) /\
  convert_file_charset (py "/tmp/a.txt") (py "/out/old.txt")
    (py "latin-9") (py "utf-8") demo_err
  = (demo_err, inl LookupError) /\
  convert_file_charset (py "/tmp/a.txt") (py "/out/old.txt")
    (py "utf-8") (py "utf-8" ++ [0]) demo_err
  = (demo_err, inl ValueError).
Proof.
  split; [|split].
  - apply (proj1 (proj2 (convert_file_charset_source_errors demo_err
             (py "/tmp/nothing") (py "/out/old.txt") (py "utf-8")
             (py "shift_jis"))) (Errno ENOENT)); reflexivity.
  - apply (proj1 (proj2 (proj2 (proj2 (convert_file_charset_source_errors
             demo_err (py "/tmp/a.txt") (py "/out/old.txt") (py "latin-9")
             (py "utf-8")))))
             (py "a" ++ [CR; LF] ++ py "b")); reflexivity.
  - apply (proj2 (proj2 (proj2 (proj2 (convert_file_charset_source_errors
             demo_err (py "/tmp/a.txt") (py "/out/old.txt") (py "utf-8")
             (py "utf-8" ++ [0])))))
             (py "a" ++ [CR; LF] ++ py "b") (Codec Utf8.decode Utf8.encode)
             ValueError); reflexivity.
Defined.



(** X15: converting a file onto itself loses its content: the file is
    truncated when it is opened for writing, before it is read, so what
    is written is the conversion of an empty file, whatever the file
    held. *)
Theorem convert_file_charset_in_place w src dst e1 e2 c1 c2 b t0 b0 :
  os_stat w src = inr (File b) ->
  resolve w dst = resolve w src ->
  lookup_codec (lib w) e1 = Some c1 ->
  lookup_codec (lib w) e2 = Some c2 ->
  decode c1 [] = Some t0 ->
  encode c2 (universal_newlines t0) = Some b0 ->
  exists w',
    convert_file_charset src dst e1 e2 w = (w', inr tt) /\
    os_stat w' src = inr (File b0) /\ os_stat w' dst = inr (File b0).
Proof.
  intros Hs Hr H1 H2 Hd He.
  apply os_stat_file in Hs as (cs & Hrs & Hgs).
  rewrite Hrs in Hr.
  assert (Hnd : is_dir_opt (tree_get cs (root w)) = false) by by rewrite Hgs.
  destruct (open_write_truncates w dst cs Hr Hnd) as (w1 & Ho & S1 & G1 & K1).
  assert (Hnil : cs <> []) by by eapply resolve_nonroot_file.
  destruct (file_store_open w1 cs [] b0 G1 Hnil) as (w2 & Hst & S2 & G2 & K2).
  assert (S12 : same_dirs w w2) by by eapply same_dirs_trans.
  exists w2. split; [|split; by eapply os_stat_same_dirs_file].
  unfold convert_file_charset.
  rewrite (bind_ok _ _ _ _ _ (builtin_open_read_text _ _ _ _ _ _ Hrs Hgs H1)).
  assert (H2' : lookup_codec (lib w1) e2 = Some c2).
  { destruct S1 as (_ & -> & _). done. }
  rewrite (bind_ok _ _ _ _ _ (builtin_open_write_text _ _ _ _ _ _ Ho H2')).
  unfold bind, file_read, file_write, file_data. cbn [fo_path fo_codec].
  rewrite G1, Hd. by rewrite He.
Qed.

Lemma convert_file_charset_in_place_witness :
  exists w',
    convert_file_charset (py "/tmp/kana.txt") (py "/tmp/./kana.txt")
      (py "utf-8") (py "shift_jis") demo = (w', inr tt) /\
    os_stat w' (py "/tmp/kana.txt") = inr (File []).
Proof.
  destruct (convert_file_charset_in_place demo
              (py "/tmp/kana.txt") (py "/tmp/./kana.txt")
              (py "utf-8") (py "shift_jis")
              (Codec Utf8.decode Utf8.encode)
              (Codec ShiftJis.decode ShiftJis.encode)
              [239; 189; 177; 239; 189; 178] [] [])
    as (w' & Hrun & Hsrc & _); [reflexivity ..|].
  exists w'. split; [exact Hrun|exact Hsrc].
Defined.

(** X16: convert, then read: after a successful conversion to an encoding
    that gives the written text back, [read_file] and [read_file_lines] on
    the destination under the new encoding return what they return on the
    source under the old one, and the source is unchanged. *)
Theorem convert_file_charset_then_read w src dst e1 e2 c1 c2 b t b' :
  os_stat w src = inr (File b) ->
  writable w dst = true ->
  resolve w src <> resolve w dst ->
  lookup_codec (lib w) e1 = Some c1 ->
  lookup_codec (lib w) e2 = Some c2 ->
  decode c1 b = Some t ->
  encode c2 (universal_newlines t) = Some b' ->
  decode c2 b' = Some (universal_newlines t) ->
  exists w',
    convert_file_charset src dst e1 e2 w = (w', inr tt) /\
    os_stat w' src = inr (File b) /\
    read_file src e1 false w' = (w', inr (Text (universal_newlines t))) /\
    read_file dst e2 false w' = (w', inr (Text (universal_newlines t))) /\
    read_file_lines dst e2 w'
    = (w', inr (str_split (universal_newlines t) LF)) /\
    snd (read_file_lines src e1 w)
    = inr (str_split (universal_newlines t) LF).
Proof.
  intros Hs Hw Hne H1 H2 Hd He Hd2.
  destruct (convert_file_charset_run w src dst e1 e2 c1 c2 b t b'
              Hs Hw Hne H1 H2 Hd He) as (w' & Hrun & Hdst & Hsd & Hfr).
  pose proof (Hfr src b Hs Hne) as Hsrc.
  assert (Hlib : lib w' = lib w) by by destruct Hsd as (_ & ? & _).
  assert (Hrd : read_file dst e2 false w'
                = (w', inr (Text (universal_newlines t)))).
  { rewrite (read_file_text w' dst e2 c2 b' Hdst) by (by rewrite Hlib).
    by rewrite Hd2, universal_newlines_idem. }
  exists w'. split; [done|]. split; [done|]. split; [|split; [done|split]].
  - rewrite (read_file_text w' src e1 c1 b Hsrc) by (by rewrite Hlib).
    by rewrite Hd.
  - unfold read_file_lines, bind. by rewrite Hrd.
  - unfold read_file_lines, bind.
    by rewrite (read_file_text _ _ _ _ _ Hs H1), Hd.
Qed.

Lemma convert_file_charset_then_read_witness :
  exists w',
    convert_file_charset (py "/tmp/kana.txt") (py "/out/k.sjis")
      (py "utf-8") (py "shift_jis") demo = (w', inr tt) /\
    read_file (py "/out/k.sjis") (py "shift_jis") false w'
    = (w', inr (Text [65393; 65394])).
Proof.
  destruct (convert_file_charset_then_read demo
              (py "/tmp/kana.txt") (py "/out/k.sjis")
              (py "utf-8") (py "shift_jis")
              (Codec Utf8.decode Utf8.encode)
              (Codec ShiftJis.decode ShiftJis.encode)
              [239; 189; 177; 239; 189; 178] [65393; 65394] [177; 178])
    as (w' & Hrun & _ & _ & Hread & _);
    [reflexivity | reflexivity | vm_compute; discriminate
    | reflexivity .. |].
  exists w'. split; [exact Hrun|exact Hread].
Defined.

(** ** [__pop_none_file_paths__] *)

(** X17: on a list object that holds [items], [__pop_none_file_paths__]
    never raises (each index it pops is in range); it returns the paths
    that are not existing files, in their order, and leaves in the list
    the paths that are, in their order: the two share out the items.  The
    file system and the other list objects are untouched. *)
Theorem pop_none_file_paths_partition w l items :
  heap w !! l = Some items ->
  exists w' missing,
    __pop_none_file_paths__ l w = (w', inr missing) /\
    missing = List.filter (fun p => negb (os_path_isfile w p)) items /\
    heap w' !! l = Some (List.filter (os_path_isfile w) items) /\
    (length (List.filter (os_path_isfile w) items) + length missing
     = length items)%nat /\
    root w' = root w /\
    (forall l2, l2 <> l -> heap w' !! l2 = heap w !! l2).
Proof.
  intros Hl. eexists _, _. split; [by apply pop_none_file_paths_spec|].
  split; [done|]. split; [simpl; apply lookup_insert_eq|].
  split; [apply filter_split_length|]. split; [done|].
  intros l2 Hne. simpl. by rewrite lookup_insert_ne.
Qed.

Lemma pop_none_file_paths_partition_witness :
  exists w',
    __pop_none_file_paths__ demo_list demo = (w', inr [py "/tmp/missing.txt"]) /\
    heap w' !! demo_list = Some [py "/tmp/a.txt"; py "/tmp/b.txt"].
Proof.
  destruct (pop_none_file_paths_partition demo demo_list
              [py "/tmp/a.txt"; py "/tmp/missing.txt"; py "/tmp/b.txt"])
    as (w' & missing & Hrun & -> & Hkept & _); [reflexivity|].
  exists w'. split; [exact Hrun|exact Hkept].
Defined.

(** X18: a second call of [__pop_none_file_paths__] on the same list finds
    nothing to remove: it returns the empty list and changes nothing. *)
Theorem pop_none_file_paths_twice w l items :
  heap w !! l = Some items ->
  exists w1 missing,
    __pop_none_file_paths__ l w = (w1, inr missing) /\
    __pop_none_file_paths__ l w1 = (w1, inr []).
Proof.
  intros Hl. eexists _, _. split; [by apply pop_none_file_paths_spec|].
  set (kept := List.filter (os_path_isfile w) items).
  set (w1 := set_heap w (<[l := kept]> (heap w))).
  rewrite (pop_none_file_paths_spec w1 l kept)
    by (subst w1; simpl; apply lookup_insert_eq).
  change (os_path_isfile w1) with (os_path_isfile w).
  subst kept. rewrite filter_idem, filter_negb_filter.
  subst w1. simpl. by rewrite set_heap_set_heap, insert_insert_eq.
Qed.

Lemma pop_none_file_paths_twice_witness :
  exists w1 missing,
    __pop_none_file_paths__ demo_list demo = (w1, inr missing) /\
    __pop_none_file_paths__ demo_list w1 = (w1, inr []).
Proof.
  apply (pop_none_file_paths_twice demo demo_list
           [py "/tmp/a.txt"; py "/tmp/missing.txt"; py "/tmp/b.txt"]).
  reflexivity.
Defined.
